(** * CloudGuard alert module: alert lifecycle, filtering and aggregation

    A shallow embedding of the alert model class ([Alert]) and of the
    dashboard logic of the CloudGuard alert module (computed values
    [filteredAlerts], [statistics], [categoryCounts], the event handler
    [handleStatusUpdate] and the card logic [getNextStatus]), followed by the
    properties of the alert status machine and of the view model.

    JavaScript objects are finite maps from property names to values, the
    React state of the [Dashboard] component is a record that event handlers
    transform, and a thrown exception is an explicit result. *)

From Stdlib Require Import ZArith NArith Ascii String List Bool Lia.
From stdpp Require Import gmap strings list fin_maps pretty.

Local Open Scope stdpp_scope.

(* ===================================================================== *)
(** * JavaScript values and objects *)
(* ===================================================================== *)

(** The values that reach the modelled code.  Alerts arrive as parsed JSON,
    so their properties are strings, numbers, booleans or [null]; a missing
    property reads as [undefined].  [VBuiltin] stands for an object or a
    function of the runtime (the members of [Object.prototype]), identified by
    its name; two such references are identical when they have the same name.
    Numbers are the integer-valued ones (identifiers, millisecond clocks). *)
Inductive value : Type :=
  | VUndefined
  | VNull
  | VBool (b : bool)
  | VNumber (n : Z)
  | VString (s : string)
  | VBuiltin (name : string).

#[global] Instance value_eq_dec : EqDecision value.
Proof. solve_decision. Defined.

(** [a === b] on the values above. *)
Definition strict_eq (a b : value) : bool := bool_decide (a = b).

(** ToBoolean, as used by [!x] and by the conditional operator. *)
Definition truthy (v : value) : bool :=
  match v with
  | VUndefined | VNull => false
  | VBool b => b
  | VNumber n => negb (n =? 0)%Z
  | VString s => negb (bool_decide (s = ""))
  | VBuiltin _ => true
  end.

(** An ordinary object: its own properties. *)
Abbreviation obj := (gmap string value).

(** The properties every ordinary object inherits from [Object.prototype]
    (ECMAScript 20.1.3 and B.2.2).  [__proto__] is the accessor that yields
    the prototype itself. *)
Definition Object_prototype : obj :=
  list_to_map
    [ ("constructor", VBuiltin "Object");
      ("hasOwnProperty", VBuiltin "Object.prototype.hasOwnProperty");
      ("isPrototypeOf", VBuiltin "Object.prototype.isPrototypeOf");
      ("propertyIsEnumerable", VBuiltin "Object.prototype.propertyIsEnumerable");
      ("toLocaleString", VBuiltin "Object.prototype.toLocaleString");
      ("toString", VBuiltin "Object.prototype.toString");
      ("valueOf", VBuiltin "Object.prototype.valueOf");
      ("__proto__", VBuiltin "Object.prototype");
      ("__defineGetter__", VBuiltin "Object.prototype.__defineGetter__");
      ("__defineSetter__", VBuiltin "Object.prototype.__defineSetter__");
      ("__lookupGetter__", VBuiltin "Object.prototype.__lookupGetter__");
      ("__lookupSetter__", VBuiltin "Object.prototype.__lookupSetter__") ].

(** [o[k]] and [o.k]: the own property if there is one, else the inherited
    one, else [undefined]. *)
Definition js_get (o : obj) (k : string) : value :=
  match o !! k with
  | Some v => v
  | None => default VUndefined (Object_prototype !! k)
  end.

(** [{ ...o, k: v }]: a copy of the own properties of [o] with [k] set. *)
Definition spread_with (o : obj) (k : string) (v : value) : obj := <[k := v]> o.

(* ===================================================================== *)
(** * Exceptions *)
(* ===================================================================== *)

Inductive exn : Type :=
  | TypeError
  | Error (msg : string).

Inductive result (A : Type) : Type :=
  | Ok (a : A)
  | Throw (e : exn).
Arguments Ok {A} a.
Arguments Throw {A} e.

#[global] Instance result_ret : MRet result := fun _ a => Ok a.
#[global] Instance result_bind : MBind result := fun _ _ f m =>
  match m with
  | Ok a => f a
  | Throw e => Throw e
  end.

(* ===================================================================== *)
(** * Strings *)
(* ===================================================================== *)

(** A string is its sequence of code units; the model covers the code units
    below 256 (Basic Latin and Latin-1 Supplement), one [ascii] each. *)

(** [toLowerCase] on one code unit: A-Z, and the Latin-1 capitals U+00C0 to
    U+00DE except the multiplication sign U+00D7, move up by 32. *)
Definition toLowerCase_unit (c : ascii) : ascii :=
  let n := N_of_ascii c in
  if ((65 <=? n) && (n <=? 90) || (192 <=? n) && (n <=? 222) && negb (n =? 215))%N
  then ascii_of_N (n + 32)
  else c.

(** [s.toLowerCase()] *)
Fixpoint toLowerCase (s : string) : string :=
  match s with
  | EmptyString => EmptyString
  | String c s' => String (toLowerCase_unit c) (toLowerCase s')
  end.

(** [s.replace(/-/g, '')] *)
Fixpoint remove_hyphens (s : string) : string :=
  match s with
  | EmptyString => EmptyString
  | String c s' =>
      if Ascii.eqb c "-"%char then remove_hyphens s' else String c (remove_hyphens s')
  end.

(** [s.startsWith(t)] *)
Fixpoint startsWith (s t : string) : bool :=
  match t, s with
  | EmptyString, _ => true
  | String _ _, EmptyString => false
  | String d t', String c s' => Ascii.eqb c d && startsWith s' t'
  end.

(** [s.includes(t)]: [t] occurs in [s] at some position. *)
Fixpoint includes (s t : string) : bool :=
  startsWith s t ||
  match s with
  | EmptyString => false
  | String _ s' => includes s' t
  end.

(** [v.toLowerCase()] on an arbitrary value: a method of strings only. *)
Definition call_toLowerCase (v : value) : result string :=
  match v with
  | VString s => Ok (toLowerCase s)
  | _ => Throw TypeError
  end.

(* ===================================================================== *)
(** * The Alert model class *)
(* ===================================================================== *)

(** [new Alert({ id, severity, category, status, description })]: the five
    destructured properties of the argument are assigned, in this order, to a
    fresh object. *)
Definition Alert (arg : obj) : obj :=
  let this : obj := ∅ in
  let this := <["id" := js_get arg "id"]> this in
  let this := <["severity" := js_get arg "severity"]> this in
  let this := <["category" := js_get arg "category"]> this in
  let this := <["status" := js_get arg "status"]> this in
  let this := <["description" := js_get arg "description"]> this in
  this.

(* ===================================================================== *)
(** * The status machine of the alert card *)
(* ===================================================================== *)

(** The lookup table of [getNextStatus]. *)
Definition transitions : obj :=
  list_to_map
    [ ("New", VString "Acknowledged");
      ("Acknowledged", VString "In-Progress");
      ("In-Progress", VString "Resolved");
      ("Resolved", VNull) ].

(** [getNextStatus(currentStatus)] is [transitions[currentStatus]]. *)
Definition getNextStatus (currentStatus : string) : value :=
  js_get transitions currentStatus.

(** [canTransition = nextStatus !== null] *)
Definition canTransition (nextStatus : value) : bool :=
  negb (strict_eq nextStatus VNull).

(* ===================================================================== *)
(** * The state of the Dashboard component *)
(* ===================================================================== *)

(** The filter criteria; the values come from the select boxes and the
    search input, so all four are strings. *)
Record Filters : Type := {
  severity : string;
  status : string;
  category : string;
  search : string
}.

(** The state hooks of [Dashboard] ([lastFetchTime] is display only and is
    left out), with the messages shown through [window.alert]. *)
Record DashState : Type := {
  alerts : list obj;
  loading : bool;
  error : value;
  filters : Filters;
  dialogs : list string
}.

Definition initial_filters : Filters :=
  {| severity := "all"; status := "all"; category := "all"; search := "" |}.

Definition initial_state : DashState :=
  {| alerts := []; loading := true; error := VNull;
     filters := initial_filters; dialogs := [] |}.

(** Code of the component: it reads and writes the state and may throw. *)
Definition M (A : Type) : Type := DashState → result A * DashState.

#[global] Instance M_ret : MRet M := fun _ a st => (Ok a, st).
#[global] Instance M_bind : MBind M := fun _ _ f m st =>
  match m st with
  | (Ok a, st') => f a st'
  | (Throw e, st') => (Throw e, st')
  end.

Definition lift {A} (r : result A) : M A := fun st => (r, st).
Definition gets {A} (f : DashState → A) : M A := fun st => (Ok (f st), st).
Definition throw {A} (e : exn) : M A := lift (Throw e).

(** [try { body } catch (err) { handler }] *)
Definition try_catch {A} (body : M A) (handler : exn → M A) : M A := fun st =>
  match body st with
  | (Ok a, st') => (Ok a, st')
  | (Throw e, st') => handler e st'
  end.

(** [setAlerts(prev => upd(prev))] *)
Definition setAlerts (upd : list obj → list obj) : M unit := fun st =>
  (Ok tt,
   {| alerts := upd (alerts st); loading := loading st; error := error st;
      filters := filters st; dialogs := dialogs st |}).

(** [alert(msg)] in a handler, where the name is the global dialog. *)
Definition window_alert (msg : string) : M unit := fun st =>
  (Ok tt,
   {| alerts := alerts st; loading := loading st; error := error st;
      filters := filters st; dialogs := dialogs st ++ [msg] |}).

(** [arr.filter(cb)]: the callback runs on each element in index order and
    the kept elements are collected in a new array. *)
Fixpoint Array_filter {A} (cb : A → M bool) (arr : list A) : M (list A) :=
  match arr with
  | [] => mret []
  | x :: rest =>
      keep ← cb x;
      kept ← Array_filter cb rest;
      mret (if keep : bool then x :: kept else kept)
  end.

(* ===================================================================== *)
(** * Computed values *)
(* ===================================================================== *)

(** The arrow function given to [alerts.filter] in [filteredAlerts]. *)
Definition filter_callback (crit : Filters) (alert : obj) : result bool :=
  (* Severity filter *)
  matchesSeverity ←
    (if bool_decide (severity crit = "all") then Ok true
     else
       s ← call_toLowerCase (js_get alert "severity");
       Ok (bool_decide (s = toLowerCase (severity crit))));
  (* Status filter *)
  normalizedStatus ←
    (s ← call_toLowerCase (js_get alert "status"); Ok (remove_hyphens s));
  let matchesStatus :=
    bool_decide (status crit = "all") ||
    bool_decide (normalizedStatus = remove_hyphens (toLowerCase (status crit))) in
  (* Category filter *)
  matchesCategory ←
    (if bool_decide (category crit = "all") then Ok true
     else
       c ← call_toLowerCase (js_get alert "category");
       Ok (bool_decide (c = toLowerCase (category crit))));
  (* Search filter *)
  let searchLower := toLowerCase (search crit) in
  matchesSearch ←
    (if negb (truthy (VString (search crit))) then Ok true
     else
       d ← call_toLowerCase (js_get alert "description");
       if includes d searchLower then Ok true
       else
         i ← call_toLowerCase (js_get alert "id");
         Ok (includes i searchLower));
  Ok (matchesSeverity && matchesStatus && matchesCategory && matchesSearch).

(** [filteredAlerts], recomputed from [alerts] and [filters]. *)
Definition filteredAlerts : M (list obj) :=
  arr ← gets alerts;
  crit ← gets filters;
  Array_filter (fun alert => lift (filter_callback crit alert)) arr.

Record Statistics : Type := {
  new : nat;
  acknowledged : nat;
  inProgress : nat;
  resolved : nat;
  total : nat
}.

(** [arr.filter(a => a[field] === s).length] *)
Definition count_where (field s : string) (arr : list obj) : nat :=
  length (List.filter (fun a => strict_eq (js_get a field) (VString s)) arr).

(** [statistics], recomputed from [alerts]. *)
Definition statistics (arr : list obj) : Statistics :=
  {| new := count_where "status" "New" arr;
     acknowledged := count_where "status" "Acknowledged" arr;
     inProgress := count_where "status" "In-Progress" arr;
     resolved := count_where "status" "Resolved" arr;
     total := length arr |}.

Record CategoryCounts : Type := {
  CVE : nat;
  S3 : nat;
  IAM : nat;
  Network : nat;
  Activity : nat
}.

(** [categoryCounts], recomputed from [alerts]. *)
Definition categoryCounts (arr : list obj) : CategoryCounts :=
  {| CVE := count_where "category" "CVE" arr;
     S3 := count_where "category" "S3" arr;
     IAM := count_where "category" "IAM" arr;
     Network := count_where "category" "Network" arr;
     Activity := count_where "category" "Activity" arr |}.

(* ===================================================================== *)
(** * Event handlers *)
(* ===================================================================== *)

(** What the [fetch] of a handler comes back with: the promise is rejected
    (no connection), or there is a response with its [ok] flag. *)
Inductive fetch_outcome : Type :=
  | Rejected
  | Response (ok : bool).

(** The callback of the optimistic update:
    [alert.id === alertId ? { ...alert, status: newStatus } : alert]. *)
Definition update_one (alertId newStatus : value) (alert : obj) : obj :=
  if strict_eq (js_get alert "id") alertId
  then spread_with alert "status" newStatus
  else alert.

(** [handleStatusUpdate(alertId, newStatus)], given the outcome of its PUT
    request (the lines written to the console are left out). *)
Definition handleStatusUpdate (alertId newStatus : value) (net : fetch_outcome)
  : M unit :=
  try_catch
    (response_ok ←
       match net with
       | Rejected => throw TypeError
       | Response ok => mret ok
       end;
     _ ← (if negb response_ok
          then throw (Error "Failed to update alert status")
          else mret tt);
     (* Optimistic UI update *)
     setAlerts (map (update_one alertId newStatus)))
    (fun err => window_alert "Failed to update alert status. Please try again.").

(** [handleFilterChange(filterType, value)]: [{ ...prev, [filterType]: value }].
    The four filter controls are its callers; under another name the value
    would land in a property that nothing reads. *)
Definition handleFilterChange (filterType value : string) : M unit := fun st =>
  let prev := filters st in
  let next :=
    if bool_decide (filterType = "severity") then
      {| severity := value; status := status prev; category := category prev; search := search prev |}
    else if bool_decide (filterType = "status") then
      {| severity := severity prev; status := value; category := category prev; search := search prev |}
    else if bool_decide (filterType = "category") then
      {| severity := severity prev; status := status prev; category := value; search := search prev |}
    else if bool_decide (filterType = "search") then
      {| severity := severity prev; status := status prev; category := category prev; search := value |}
    else prev in
  (Ok tt,
   {| alerts := alerts st; loading := loading st; error := error st;
      filters := next; dialogs := dialogs st |}).

(* ===================================================================== *)
(** * The alert card *)
(* ===================================================================== *)

(** [s.replace('-', '')]: only the first hyphen goes. *)
Fixpoint remove_first_hyphen (s : string) : string :=
  match s with
  | EmptyString => EmptyString
  | String c s' => if Ascii.eqb c "-"%char then s' else String c (remove_first_hyphen s')
  end.

(** What a card shows as far as the status machine is concerned: its class
    names and, when a transition is offered, the arguments of the
    [onStatusUpdate] call behind its button. *)
Record Card : Type := {
  card_className : string;
  status_badge : string;
  action : option (value * value)
}.

(** [AlertCard({ alert, index, onStatusUpdate })].  A status that is not a
    string makes the render throw at the status badge, whatever the table
    lookup gave, so the lookup is modelled on strings. *)
Definition AlertCard (alert : obj) : result Card :=
  match js_get alert "status" with
  | VString current =>
      let nextStatus := getNextStatus current in
      sev ← call_toLowerCase (js_get alert "severity");
      Ok {| card_className := "alert-card severity-" +:+ sev;
            status_badge :=
              "badge badge-status " +:+ remove_first_hyphen (toLowerCase current);
            action :=
              if canTransition nextStatus
              then Some (js_get alert "id", nextStatus)
              else None |}
  | _ => Throw TypeError
  end.

(* ===================================================================== *)
(** * The store behind the status endpoint *)
(* ===================================================================== *)

(** The errors of the store. *)
Inductive store_error : Type :=
  | NotFound
  | InvalidTransition.

(** Modelled from the spec: the transition table of the status machine
    (section 4.1), used by the store operation below; the route module and
    the alert manager that serve [PUT /alerts/{id}/status] are not among the
    sources. *)
Definition next_status (current : string) : option string :=
  if bool_decide (current = "New") then Some "Acknowledged"
  else if bool_decide (current = "Acknowledged") then Some "In-Progress"
  else if bool_decide (current = "In-Progress") then Some "Resolved"
  else None.

(** Modelled from the spec: the store operation "advance alert status"
    (sections 4.1, 7 and 9), missing from the sources with the route module.
    An unknown id is [NotFound]; a terminal alert, or a target that is not
    the legal next value, is [InvalidTransition]; otherwise the status of the
    alert with that id is set and the updated alert is returned.  The store
    comes back with the answer. *)
Definition updateAlertStatus (store : list obj) (id target : string)
  : list obj * (store_error + obj) :=
  match List.find (fun a => strict_eq (js_get a "id") (VString id)) store with
  | None => (store, inl NotFound)
  | Some a =>
      match js_get a "status" with
      | VString current =>
          match next_status current with
          | Some next =>
              if bool_decide (target = next)
              then (map (fun b => if strict_eq (js_get b "id") (VString id)
                                  then <["status" := VString next]> b else b) store,
                    inr (<["status" := VString next]> a))
              else (store, inl InvalidTransition)
          | None => (store, inl InvalidTransition)
          end
      | _ => (store, inl InvalidTransition)
      end
  end.

(** Modelled from the spec: the status code of [PUT /alerts/{id}/status]
    (section 6): 404 for [NotFound], 400 for [InvalidTransition]. *)
Definition PUT_status_code (answer : store_error + obj) : Z :=
  match answer with
  | inr _ => 200
  | inl NotFound => 404
  | inl InvalidTransition => 400
  end.

(** [response.ok]: the status code is in the range 200-299. *)
Definition response_of_code (code : Z) : fetch_outcome :=
  Response ((200 <=? code)%Z && (code <=? 299)%Z).

(* ===================================================================== *)
(** * Vocabulary of the properties *)
(* ===================================================================== *)

(** The four lifecycle statuses. *)
Definition lifecycle : list string := ["New"; "Acknowledged"; "In-Progress"; "Resolved"].

(** The alert's status is, exactly, one of the four lifecycle strings. *)
Definition has_lifecycle_status (alert : obj) : Prop :=
  ∃ s, js_get alert "status" = VString s ∧ s ∈ lifecycle.

(** The property [k] of the alert is a string. *)
Definition has_string (alert : obj) (k : string) : Prop :=
  ∃ s, js_get alert k = VString s.

(** An alert as the data model has it: its five descriptive fields are
    strings (it may carry further properties, a timestamp among them). *)
Definition well_formed (alert : obj) : Prop :=
  has_string alert "id" ∧ has_string alert "severity" ∧
  has_string alert "category" ∧ has_string alert "status" ∧
  has_string alert "description".

(** The string held by a property (the empty string for another value). *)
Definition get_string (alert : obj) (k : string) : string :=
  match js_get alert k with
  | VString s => s
  | _ => ""
  end.

(** [t] is a substring of [s]. *)
Definition substring_of (t s : string) : Prop :=
  ∃ pre post, s = pre +:+ t +:+ post.

(** Equal up to case. *)
Definition equal_ignoring_case (a b : string) : Prop :=
  toLowerCase a = toLowerCase b.

(** The status normalisation in the words of the filtering rule: hyphens
    removed, then lowercased. *)
Definition normalized (s : string) : string := toLowerCase (remove_hyphens s).

(** The filtering rule, as stated: an alert passes when every criterion is
    ['all'] (or empty, for the search) or matches. *)
Definition passes_filter (crit : Filters) (alert : obj) : Prop :=
  (severity crit = "all" ∨
   equal_ignoring_case (get_string alert "severity") (severity crit)) ∧
  (status crit = "all" ∨
   normalized (get_string alert "status") = normalized (status crit)) ∧
  (category crit = "all" ∨
   equal_ignoring_case (get_string alert "category") (category crit)) ∧
  (search crit = "" ∨
   substring_of (toLowerCase (search crit)) (toLowerCase (get_string alert "description")) ∨
   substring_of (toLowerCase (search crit)) (toLowerCase (get_string alert "id"))).

(** The callback reduced to a boolean, on the five strings it reads. *)
Definition matchesb (crit : Filters) (i sev cat st desc : string) : bool :=
  (bool_decide (severity crit = "all") ||
   bool_decide (toLowerCase sev = toLowerCase (severity crit))) &&
  (bool_decide (status crit = "all") ||
   bool_decide (remove_hyphens (toLowerCase st) =
                remove_hyphens (toLowerCase (status crit)))) &&
  (bool_decide (category crit = "all") ||
   bool_decide (toLowerCase cat = toLowerCase (category crit))) &&
  (bool_decide (search crit = "") ||
   includes (toLowerCase desc) (toLowerCase (search crit)) ||
   includes (toLowerCase i) (toLowerCase (search crit))).

(** The filter callback without the state: [filter] over a callback that
    may throw. *)
Fixpoint filter_res {A} (f : A → result bool) (l : list A) : result (list A) :=
  match l with
  | [] => Ok []
  | x :: rest =>
      keep ← f x;
      kept ← filter_res f rest;
      Ok (if keep : bool then x :: kept else kept)
  end.

(** A computation whose only exception is the [TypeError] of a method
    call on a value that is not a string. *)
Definition only_TypeError {A} (r : result A) : Prop :=
  ∀ e, r = Throw e → e = TypeError.

(** Sample alerts. *)
Definition sample_alert (i sev cat st desc : string) : obj :=
  list_to_map
    [ ("id", VString i); ("severity", VString sev); ("category", VString cat);
      ("status", VString st); ("description", VString desc);
      ("timestamp", VString "2025-01-15T10:30:00.000Z") ].

Definition A1 : obj := sample_alert "A1" "High" "CVE" "New" "Outdated openssl".
Definition A2 : obj := sample_alert "A2" "Low" "S3" "In-Progress" "Public bucket".
Definition A3 : obj := sample_alert "A3" "Medium" "IAM" "in-progress" "Wildcard policy".

Definition state_with (arr : list obj) (crit : Filters) : DashState :=
  {| alerts := arr; loading := false; error := VNull; filters := crit; dialogs := [] |}.

(* ===================================================================== *)
(** * Fetching the alerts *)
(* ===================================================================== *)

(** What [response.json()] delivers: its promise is rejected with the
    parser's message, or the parsed value is an array (of alert objects),
    another object, or a primitive. *)
Inductive response_body : Type :=
  | InvalidJSON (message : string)
  | JSONArray (data : list obj)
  | JSONObject (data : obj)
  | JSONPrimitive (data : value).

(** What the [fetch] of [fetchAlerts] comes back with: a rejection with its
    message, or a response with its status code and body. *)
Inductive alerts_fetch : Type :=
  | NetworkError (message : string)
  | HttpResponse (code : Z) (body : response_body).

(** [response.ok] *)
Definition response_ok (code : Z) : bool := (200 <=? code)%Z && (code <=? 299)%Z.

(** [err.message].  The [TypeError] of the model carries no message; the
    body of [fetchAlerts] throws none. *)
Definition exn_message (err : exn) : string :=
  match err with
  | Error msg => msg
  | TypeError => ""
  end.

(** [setError(v)] *)
Definition setError (v : value) : M unit := fun st =>
  (Ok tt,
   {| alerts := alerts st; loading := loading st; error := v;
      filters := filters st; dialogs := dialogs st |}).

(** [setLoading(b)] *)
Definition setLoading (b : bool) : M unit := fun st =>
  (Ok tt,
   {| alerts := alerts st; loading := b; error := error st;
      filters := filters st; dialogs := dialogs st |}).

(** [try { body } finally { fin }] *)
Definition try_finally {A} (body : M A) (fin : M unit) : M A := fun st =>
  match body st with
  | (r, st') =>
      match fin st' with
      | (Ok _, st'') => (r, st'')
      | (Throw e, st'') => (Throw e, st'')
      end
  end.

(** [fetchAlerts()], given the outcome of its GET request.  Only the message
    of a caught exception is read, so the rejection of the request is thrown
    as an [Error] with its message.  The time of the fetch and the lines
    written to the console are left out. *)
Definition fetchAlerts (net : alerts_fetch) : M unit :=
  try_finally
    (try_catch
       (data ←
          match net with
          | NetworkError msg => throw (Error msg)
          | HttpResponse code body =>
              _ ← (if negb (response_ok code)
                   then throw (Error ("HTTP error! status: " +:+ pretty code))
                   else mret tt);
              match body with
              | InvalidJSON msg => throw (Error msg)
              | _ => mret body
              end
          end;
        (* Ensure data is an array *)
        let alertsArray := match data with JSONArray l => l | _ => [] end in
        _ ← setAlerts (fun _ => alertsArray);
        setError VNull)
       (fun err => setError (VString (exn_message err))))
    (setLoading false).

(** [handleManualRefresh()] *)
Definition handleManualRefresh (net : alerts_fetch) : M unit :=
  _ ← setLoading true;
  fetchAlerts net.

(** The effect of the component: a first [fetchAlerts()], then one for
    every tick of the refresh interval, each given the outcome of its
    request, in the order in which they complete. *)
Fixpoint refreshes (nets : list alerts_fetch) : M unit :=
  match nets with
  | [] => mret tt
  | net :: rest => _ ← fetchAlerts net; refreshes rest
  end.

(* ===================================================================== *)
(** * The components below the Dashboard *)
(* ===================================================================== *)

(** The trend shown on a stat card. *)
Record Trend : Type := {
  trend_value : string;
  direction : string
}.

(** The properties of a stat card (the icon is left out). *)
Record StatCard : Type := {
  label : string;
  value_shown : nat;
  className : string;
  trend : Trend
}.

(** [StatsGrid({ statistics })]: the four stat cards.  A string
    concatenation with a count prints the count in decimal. *)
Definition StatsGrid (statistics : Statistics) : list StatCard :=
  [ {| label := "New Alerts";
       value_shown := new statistics;
       className := "new";
       trend := {| trend_value := if 0 <? new statistics
                                  then "+" +:+ pretty (new statistics) else "0";
                   direction := if 0 <? new statistics then "up" else "down" |} |};
    {| label := "Acknowledged";
       value_shown := acknowledged statistics;
       className := "acknowledged";
       trend := {| trend_value := if 0 <? acknowledged statistics
                                  then "+" +:+ pretty (acknowledged statistics) else "0";
                   direction := if 0 <? acknowledged statistics then "up" else "down" |} |};
    {| label := "In Progress";
       value_shown := inProgress statistics;
       className := "inprogress";
       trend := {| trend_value := if 0 <? inProgress statistics
                                  then "" +:+ pretty (inProgress statistics) else "0";
                   direction := if 2 <? inProgress statistics then "up" else "down" |} |};
    {| label := "Resolved";
       value_shown := resolved statistics;
       className := "resolved";
       trend := {| trend_value := if 0 <? resolved statistics
                                  then "+" +:+ pretty (resolved statistics) else "0";
                   direction := if 0 <? resolved statistics then "up" else "down" |} |} ].

(** A card of the category breakdown (the icon is left out). *)
Record CategoryCard : Type := {
  cat_name : string;
  cat_count : nat;
  cat_color : string
}.

(** [CategoryBreakdown({ categoryCounts })]: [None] is the [null] returned
    when the five counts add up to zero. *)
Definition CategoryBreakdown (categoryCounts : CategoryCounts)
  : option (list CategoryCard) :=
  let categories :=
    [ {| cat_name := "CVE"; cat_count := CVE categoryCounts; cat_color := "danger" |};
      {| cat_name := "S3"; cat_count := S3 categoryCounts; cat_color := "warning" |};
      {| cat_name := "IAM"; cat_count := IAM categoryCounts; cat_color := "primary" |};
      {| cat_name := "Network"; cat_count := Network categoryCounts;
         cat_color := "secondary" |};
      {| cat_name := "Activity"; cat_count := Activity categoryCounts;
         cat_color := "success" |} ] in
  let totalCategories := foldl (fun sum cat => sum + cat_count cat) 0 categories in
  if totalCategories =? 0 then None else Some categories.

(** What the alerts section shows below its title. *)
Inductive section_body : Type :=
  | LoadingState
  | ErrorState (error : value)
  | EmptyStateNoAlerts
  | EmptyStateFiltered
  | AlertsGrid (cards : list (obj * nat)).

(** [AlertsSection({ alerts, totalAlerts, loading, error, onStatusUpdate })]:
    the count beside the title and the body.  A card of the grid is the
    [alert] and the [index] handed to [AlertCard]. *)
Definition AlertsSection (arr : list obj) (totalAlerts : nat) (busy : bool)
    (err : value) : nat * section_body :=
  (length arr,
   if busy && (totalAlerts =? 0) then LoadingState
   else if truthy err && (totalAlerts =? 0) then ErrorState err
   else if totalAlerts =? 0 then EmptyStateNoAlerts
   else if length arr =? 0 then EmptyStateFiltered
   else AlertsGrid (imap (fun index alert => (alert, index)) arr)).

(** What [Dashboard] renders: the properties it hands to its children.
    The filters section is there only while there are alerts. *)
Record DashboardView : Type := {
  header_loading : bool;
  header_totalAlerts : nat;
  stats_grid : list StatCard;
  category_breakdown : option (list CategoryCard);
  filters_section : option Filters;
  alerts_section : nat * section_body
}.

(** The render of [Dashboard]. *)
Definition Dashboard : M DashboardView :=
  filtered ← filteredAlerts;
  arr ← gets alerts;
  busy ← gets loading;
  err ← gets error;
  crit ← gets filters;
  mret {| header_loading := busy;
          header_totalAlerts := length arr;
          stats_grid := StatsGrid (statistics arr);
          category_breakdown := CategoryBreakdown (categoryCounts arr);
          filters_section := if 0 <? length arr then Some crit else None;
          alerts_section := AlertsSection filtered (length arr) busy err |}.

(** The state with another collection. *)
Definition with_alerts (arr : list obj) (st : DashState) : DashState :=
  {| alerts := arr; loading := loading st; error := error st;
     filters := filters st; dialogs := dialogs st |}.

(** The number of hyphens of a string. *)
Fixpoint hyphens (s : string) : nat :=
  match s with
  | EmptyString => 0
  | String c s' => (if Ascii.eqb c "-"%char then 1 else 0) + hyphens s'
  end.

(** The array a request delivers to the dashboard, if it succeeds: the
    response is ok and its body parses; a parsed value that is not an array
    counts as the empty array. *)
Definition delivered (net : alerts_fetch) : option (list obj) :=
  match net with
  | HttpResponse code (JSONArray l) => if response_ok code then Some l else None
  | HttpResponse code (JSONObject _) | HttpResponse code (JSONPrimitive _) =>
      if response_ok code then Some [] else None
  | _ => None
  end.

(** The array of the last request of a sequence that succeeded. *)
Fixpoint last_delivered (nets : list alerts_fetch) : option (list obj) :=
  match nets with
  | [] => None
  | net :: rest =>
      match last_delivered rest with
      | Some l => Some l
      | None => delivered net
      end
  end.

(** The state with other filter criteria. *)
Definition with_filters (crit : Filters) (st : DashState) : DashState :=
  {| alerts := alerts st; loading := loading st; error := error st;
     filters := crit; dialogs := dialogs st |}.


(** Two values of a select criterion that the filter cannot tell apart:
    the same value, or two values other than ['all'] with the same image
    under [norm]. *)
Definition same_choice (norm : string → string) (c c' : string) : Prop :=
  c = c' ∨ (c ≠ "all" ∧ c' ≠ "all" ∧ norm c = norm c').

(** Criteria that differ in case only (and, for the status, in hyphens). *)
Definition same_criteria (crit crit' : Filters) : Prop :=
  same_choice toLowerCase (severity crit) (severity crit') ∧
  same_choice normalized (status crit) (status crit') ∧
  same_choice toLowerCase (category crit) (category crit') ∧
  toLowerCase (search crit) = toLowerCase (search crit').

(** The fields the constructor assigns. *)
Definition Alert_fields : list string :=
  ["id"; "severity"; "category"; "status"; "description"].

(** The categories the breakdown counts. *)
Definition known_categories : list string := ["CVE"; "S3"; "IAM"; "Network"; "Activity"].

(** The category of the alert is, exactly, none of the counted ones. *)
Definition uncounted_category (alert : obj) : Prop :=
  ∀ c, c ∈ known_categories → js_get alert "category" ≠ VString c.

(** The criterion a filter control sets, by the name the control passes to
    [handleFilterChange]. *)
Definition criterion (name : string) (crit : Filters) : string :=
  if bool_decide (name = "severity") then severity crit
  else if bool_decide (name = "status") then status crit
  else if bool_decide (name = "category") then category crit
  else if bool_decide (name = "search") then search crit
  else "".

(** The names of the four filter controls. *)
Definition filter_controls : list string := ["severity"; "status"; "category"; "search"].

(** The request failed, with this message in the error state. *)
Definition failed_with (net : alerts_fetch) (msg : string) : Prop :=
  match net with
  | NetworkError m => msg = m
  | HttpResponse code body =>
      if response_ok code
      then body = InvalidJSON msg
      else msg = "HTTP error! status: " +:+ pretty code
  end.

(* ===================================================================== *)
(** * The definitions at work *)
(* ===================================================================== *)

Example getNextStatus_New : getNextStatus "New" = VString "Acknowledged".
Proof. reflexivity. Qed.

Example getNextStatus_constructor : getNextStatus "constructor" = VBuiltin "Object".
Proof. reflexivity. Qed.

Example toLowerCase_ex : toLowerCase "In-Progress" = "in-progress".
Proof. reflexivity. Qed.

Example includes_ex : includes "bucket is public" "is pub" = true.
Proof. reflexivity. Qed.

Example getNextStatus_proto : getNextStatus "__proto__" = VBuiltin "Object.prototype".
Proof. reflexivity. Qed.

Example getNextStatus_lowercase : getNextStatus "resolved" = VUndefined.
Proof. reflexivity. Qed.

(** An alert built by the constructor from an argument without a status has
    the status [undefined], and the filter throws on it even with the
    initial criteria. *)
Example filteredAlerts_no_status :
  fst (filteredAlerts (state_with [Alert {["id" := VString "A7"]}] initial_filters))
  = Throw TypeError.
Proof. reflexivity. Qed.

(* ===================================================================== *)
(** * Lemmas on strings *)
(* ===================================================================== *)

Section StringLemmas.

Lemma startsWith_spec (s t : string) :
  startsWith s t = true ↔ ∃ post, s = t +:+ post.
Proof.
  revert s. induction t as [|d t IH]; intros s.
  - split; [intros _; by exists s | by destruct s].
  - destruct s as [|c s]; simpl.
    + split; [done | intros [post Hpost]; discriminate].
    + rewrite andb_true_iff, IH, Ascii.eqb_eq. split.
      * intros [-> [post ->]]. by exists post.
      * intros [post Hpost]. injection Hpost as -> ->. eauto.
Qed.

Lemma includes_spec (s t : string) :
  includes s t = true ↔ substring_of t s.
Proof.
  unfold substring_of. induction s as [|c s IH].
  - cbn [includes]. rewrite orb_false_r, startsWith_spec. split.
    + intros [post Hpost]. by exists EmptyString, post.
    + intros [pre [post Hpp]]. destruct pre; [by exists post | discriminate].
  - cbn [includes]. rewrite orb_true_iff, IH, startsWith_spec. split.
    + intros [[post Hpost] | [pre [post Hpp]]].
      * by exists EmptyString, post.
      * exists (String c pre), post. simpl. by rewrite Hpp.
    + intros [pre [post Hpp]]. destruct pre as [|c' pre].
      * left. by exists post.
      * right. simpl in Hpp. injection Hpp as _ Hpp. by exists pre, post.
Qed.

Lemma includes_empty (s : string) : includes s "" = true.
Proof. by destruct s. Qed.

Lemma toLowerCase_unit_hyphen (c : ascii) :
  Ascii.eqb (toLowerCase_unit c) "-" = Ascii.eqb c "-".
Proof. by destruct c as [[] [] [] [] [] [] [] []]. Qed.

(** Lowercasing and removing hyphens commute, so the rule's normalisation
    is the one the code computes. *)
Lemma normalized_code (s : string) :
  remove_hyphens (toLowerCase s) = normalized s.
Proof.
  unfold normalized. induction s as [|c s IH]; [done|].
  simpl. rewrite toLowerCase_unit_hyphen.
  destruct (Ascii.eqb c "-"); simpl; by rewrite IH.
Qed.

End StringLemmas.

(* ===================================================================== *)
(** * Lemmas on objects *)
(* ===================================================================== *)

Section ObjectLemmas.

Lemma strict_eq_true (a b : value) : strict_eq a b = true ↔ a = b.
Proof. unfold strict_eq. apply bool_decide_eq_true. Qed.

Lemma strict_eq_false (a b : value) : strict_eq a b = false ↔ a ≠ b.
Proof. unfold strict_eq. apply bool_decide_eq_false. Qed.

(** A name that [Object.prototype] does not define reads as the own
    property, or [undefined]. *)
Lemma js_get_own (o : obj) (k : string) :
  Object_prototype !! k = None → js_get o k = default VUndefined (o !! k).
Proof. intros Hk. unfold js_get. rewrite Hk. by destruct (o !! k). Qed.

Lemma js_get_spread_ne (o : obj) (k k' : string) (v : value) :
  k ≠ k' → js_get (spread_with o k v) k' = js_get o k'.
Proof. intros Hne. unfold js_get, spread_with. by rewrite lookup_insert_ne. Qed.

Lemma js_get_spread_eq (o : obj) (k : string) (v : value) :
  js_get (spread_with o k v) k = v.
Proof. unfold js_get, spread_with. by rewrite lookup_insert_eq. Qed.

(** Every inherited member is a runtime object, so none is [null] or
    [undefined]. *)
Lemma Object_prototype_builtin (k : string) (v : value) :
  Object_prototype !! k = Some v → ∃ name, v = VBuiltin name.
Proof.
  intros Hk. apply elem_of_list_to_map_2 in Hk.
  repeat (apply elem_of_cons in Hk as [Hk | Hk]; [injection Hk as _ ->; eauto |]).
  by apply elem_of_nil in Hk.
Qed.

(** The table has the four lifecycle statuses as its own keys, and no
    other. *)
Lemma transitions_other (s : string) :
  s ∉ lifecycle → transitions !! s = None.
Proof. intros Hs. by apply not_elem_of_list_to_map_1. Qed.

End ObjectLemmas.

(* ===================================================================== *)
(** * Lemmas on the filter *)
(* ===================================================================== *)

Section FilterLemmas.

Lemma Array_filter_lift {A} (f : A → result bool) (l : list A) (st : DashState) :
  Array_filter (fun a => lift (f a)) l st = (filter_res f l, st).
Proof.
  induction l as [|x l IH]; [done|].
  cbn [Array_filter filter_res]. unfold mbind, M_bind, lift at 1.
  destruct (f x) as [keep|e]; [|done].
  rewrite IH. simpl. by destruct (filter_res f l).
Qed.

(** [filteredAlerts] reads the state and filters its alerts. *)
Lemma filteredAlerts_unfold (st : DashState) :
  filteredAlerts st =
  (filter_res (filter_callback (filters st)) (alerts st), st).
Proof. unfold filteredAlerts. simpl. apply Array_filter_lift. Qed.

Lemma filter_res_sublist {A} (f : A → result bool) (l out : list A) :
  filter_res f l = Ok out → out `sublist_of` l.
Proof.
  revert out. induction l as [|x l IH]; intros out; simpl.
  - by intros [= <-].
  - destruct (f x) as [keep|e]; simpl; [|done].
    destruct (filter_res f l) as [kept|e]; simpl; [|done].
    intros [= <-]. destruct keep; constructor; by apply IH.
Qed.

Lemma filter_res_Ok {A} (f : A → result bool) (p : A → bool) (l : list A) :
  Forall (fun x => f x = Ok (p x)) l → filter_res f l = Ok (List.filter p l).
Proof.
  induction 1 as [|x l Hx _ IH]; [done|].
  simpl. rewrite Hx, IH. simpl. by destruct (p x).
Qed.

Lemma filter_res_Throw {A} (f : A → result bool) (l : list A) (e : exn) :
  filter_res f l = Throw e → ∃ x, x ∈ l ∧ f x = Throw e.
Proof.
  induction l as [|x l IH]; simpl; [done|].
  destruct (f x) as [keep|e'] eqn:Hx; simpl.
  - destruct (filter_res f l) as [kept|e'']; simpl; [done|].
    intros [= ->]. destruct IH as [y [Hy Hfy]]; [done|].
    exists y. split; [by right | done].
  - intros [= ->]. exists x. split; [by left | done].
Qed.

Lemma filter_callback_strings (crit : Filters) (alert : obj) (i sev cat st desc : string) :
  js_get alert "id" = VString i →
  js_get alert "severity" = VString sev →
  js_get alert "category" = VString cat →
  js_get alert "status" = VString st →
  js_get alert "description" = VString desc →
  filter_callback crit alert = Ok (matchesb crit i sev cat st desc).
Proof.
  intros Hi Hsev Hcat Hst Hdesc. unfold filter_callback, matchesb.
  rewrite Hi, Hsev, Hcat, Hst, Hdesc. simpl.
  destruct (bool_decide (severity crit = "all")),
    (bool_decide (category crit = "all")),
    (bool_decide (search crit = "")); simpl;
    try destruct (includes (toLowerCase desc) (toLowerCase (search crit)));
    simpl; by rewrite ?andb_true_r, ?andb_false_r, ?orb_true_r, ?orb_false_r.
Qed.

Lemma matchesb_passes (crit : Filters) (alert : obj) (i sev cat st desc : string) :
  js_get alert "id" = VString i →
  js_get alert "severity" = VString sev →
  js_get alert "category" = VString cat →
  js_get alert "status" = VString st →
  js_get alert "description" = VString desc →
  matchesb crit i sev cat st desc = true ↔ passes_filter crit alert.
Proof.
  intros Hi Hsev Hcat Hst Hdesc.
  unfold matchesb, passes_filter, equal_ignoring_case, get_string.
  rewrite Hi, Hsev, Hcat, Hst, Hdesc.
  rewrite !andb_true_iff, !orb_true_iff, !bool_decide_eq_true, !includes_spec,
    !normalized_code.
  tauto.
Qed.

(** On a well-formed alert the callback returns, and returns [true]
    exactly when the alert passes the rule. *)
Lemma filter_callback_well_formed (crit : Filters) (alert : obj) :
  well_formed alert →
  ∃ b, filter_callback crit alert = Ok b ∧ (b = true ↔ passes_filter crit alert).
Proof.
  intros ([i Hi] & [sev Hsev] & [cat Hcat] & [st Hst] & [desc Hdesc]).
  exists (matchesb crit i sev cat st desc). split.
  - by apply filter_callback_strings.
  - by apply matchesb_passes.
Qed.

Lemma only_TypeError_Ok {A} (a : A) : only_TypeError (Ok a).
Proof. by intros e. Qed.

Lemma only_TypeError_call (v : value) : only_TypeError (call_toLowerCase v).
Proof. intros e. destruct v; simpl; congruence. Qed.

Lemma only_TypeError_bind {A B} (m : result A) (f : A → result B) :
  only_TypeError m → (∀ a, only_TypeError (f a)) → only_TypeError (m ≫= f).
Proof.
  intros Hm Hf e. destruct m as [a|e']; simpl.
  - apply Hf.
  - intros [= ->]. by apply Hm.
Qed.

Lemma filter_callback_Throw (crit : Filters) (alert : obj) (e : exn) :
  filter_callback crit alert = Throw e → e = TypeError.
Proof.
  revert e. change (only_TypeError (filter_callback crit alert)).
  unfold filter_callback.
  repeat first
    [ apply only_TypeError_Ok
    | apply only_TypeError_call
    | apply only_TypeError_bind; [|intros ?]
    | progress cbv zeta
    | match goal with
      | |- only_TypeError (if ?b then _ else _) => destruct b
      end ].
Qed.

End FilterLemmas.

(* ===================================================================== *)
(** * Lemmas on the aggregation and on the status update *)
(* ===================================================================== *)

Section UpdateLemmas.

Lemma count_where_cons (field s : string) (a : obj) (l : list obj) :
  count_where field s (a :: l) =
  (if strict_eq (js_get a field) (VString s) then 1 else 0) + count_where field s l.
Proof.
  unfold count_where. simpl.
  by destruct (strict_eq (js_get a field) (VString s)).
Qed.

Lemma count_where_app (field s : string) (l1 l2 : list obj) :
  count_where field s (l1 ++ l2) = count_where field s l1 + count_where field s l2.
Proof. unfold count_where. by rewrite List.filter_app, length_app. Qed.

(** A bucket never counts an alert whose status is another value. *)
Lemma count_where_skip (field s : string) (a : obj) (l1 l2 : list obj) :
  js_get a field ≠ VString s →
  count_where field s (l1 ++ a :: l2) = count_where field s (l1 ++ l2).
Proof.
  intros Hne. rewrite !count_where_app, count_where_cons.
  apply strict_eq_false in Hne. by rewrite Hne.
Qed.

(** The four buckets never count more alerts than there are. *)
Lemma statistics_sum_le (arr : list obj) :
  new (statistics arr) + acknowledged (statistics arr) +
  inProgress (statistics arr) + resolved (statistics arr) ≤ total (statistics arr).
Proof.
  induction arr as [|a arr IH]; [done|].
  cbn [statistics new acknowledged inProgress resolved total] in *.
  rewrite !count_where_cons. cbn [length].
  unfold strict_eq.
  repeat case_bool_decide; try congruence; lia.
Qed.

(** The buckets cover the collection exactly when every status is a
    lifecycle value. *)
Lemma statistics_sum_iff (arr : list obj) :
  new (statistics arr) + acknowledged (statistics arr) +
  inProgress (statistics arr) + resolved (statistics arr) = total (statistics arr)
  ↔ Forall has_lifecycle_status arr.
Proof.
  induction arr as [|a arr IH]; [by split|].
  rewrite Forall_cons, <- IH. clear IH.
  pose proof (statistics_sum_le arr) as Hle.
  cbn [statistics new acknowledged inProgress resolved total] in *.
  rewrite !count_where_cons. cbn [length].
  unfold has_lifecycle_status, lifecycle, strict_eq.
  repeat case_bool_decide; try congruence;
    (split; [intros Hsum | intros [Hlife Hsum]]);
    try (split; [eexists; split; [eassumption | set_solver] | lia]);
    try lia.
  destruct Hlife as (s & Hs & Hin).
  repeat (apply elem_of_cons in Hin as [-> | Hin]; [congruence|]).
  by apply elem_of_nil in Hin.
Qed.

Lemma update_one_other_key (alertId newStatus : value) (a : obj) (k : string) :
  k ≠ "status" → update_one alertId newStatus a !! k = a !! k.
Proof.
  intros Hk. unfold update_one, spread_with.
  destruct (strict_eq (js_get a "id") alertId); [|done].
  by rewrite lookup_insert_ne.
Qed.

Lemma update_one_absent (alertId newStatus : value) (arr : list obj) :
  Forall (fun a => js_get a "id" ≠ alertId) arr →
  map (update_one alertId newStatus) arr = arr.
Proof.
  induction 1 as [|a arr Ha _ IH]; [done|].
  simpl. rewrite IH. unfold update_one.
  apply strict_eq_false in Ha. by rewrite Ha.
Qed.

(** The handler after a response that is [ok]: the optimistic update. *)
Lemma handleStatusUpdate_ok (alertId newStatus : value) (st : DashState) :
  handleStatusUpdate alertId newStatus (Response true) st =
  (Ok tt,
   {| alerts := map (update_one alertId newStatus) (alerts st);
      loading := loading st; error := error st; filters := filters st;
      dialogs := dialogs st |}).
Proof. reflexivity. Qed.

(** The handler after a failed request: a dialog, and nothing else. *)
Lemma handleStatusUpdate_failed (alertId newStatus : value) (net : fetch_outcome)
    (st : DashState) :
  net ≠ Response true →
  handleStatusUpdate alertId newStatus net st =
  (Ok tt,
   {| alerts := alerts st; loading := loading st; error := error st;
      filters := filters st;
      dialogs := dialogs st ++ ["Failed to update alert status. Please try again."] |}).
Proof. intros Hnet. by destruct net as [|[]]. Qed.

Lemma find_absent (id : string) (store : list obj) :
  Forall (fun a => js_get a "id" ≠ VString id) store →
  List.find (fun a => strict_eq (js_get a "id") (VString id)) store = None.
Proof.
  induction 1 as [|a store Ha _ IH]; [done|].
  simpl. apply strict_eq_false in Ha. by rewrite Ha.
Qed.

End UpdateLemmas.

(* ===================================================================== *)
(** * The status machine *)
(* ===================================================================== *)

(** C1. The transition function returns Acknowledged for New, In-Progress
    for Acknowledged, Resolved for In-Progress, and null for Resolved, for
    which no transition is offered. *)
Theorem getNextStatus_lifecycle :
  getNextStatus "New" = VString "Acknowledged" ∧
  getNextStatus "Acknowledged" = VString "In-Progress" ∧
  getNextStatus "In-Progress" = VString "Resolved" ∧
  getNextStatus "Resolved" = VNull ∧
  canTransition (getNextStatus "Resolved") = false.
Proof. repeat split; reflexivity. Qed.

(* ===================================================================== *)
(** * Aggregation *)
(* ===================================================================== *)

(** The identity new + acknowledged + inProgress + resolved = total fails on
    a collection holding one alert whose status is 'in-progress': it is
    counted in the total and in no bucket. *)
Lemma statistics_sum_counterexample :
  new (statistics [A3]) + acknowledged (statistics [A3]) +
  inProgress (statistics [A3]) + resolved (statistics [A3])
  ≠ total (statistics [A3]).
Proof. vm_compute. discriminate. Qed.

(** C2 (amended). For every alert collection in which the status of every
    alert is exactly one of 'New', 'Acknowledged', 'In-Progress' and
    'Resolved', the per-status counts add up to the total:
    new + acknowledged + inProgress + resolved = total. *)
Theorem statistics_sum_lifecycle (arr : list obj) :
  Forall has_lifecycle_status arr →
  new (statistics arr) + acknowledged (statistics arr) +
  inProgress (statistics arr) + resolved (statistics arr) = total (statistics arr).
Proof.
  induction 1 as [|a arr (s & Hs & Hin) _ IH]; [done|].
  cbn [statistics new acknowledged inProgress resolved total] in *.
  rewrite !count_where_cons, Hs. cbn [length]. unfold strict_eq, lifecycle in *.
  repeat (apply elem_of_cons in Hin as [-> | Hin]);
    [| | | | by apply elem_of_nil in Hin];
    repeat case_bool_decide; try congruence; lia.
Qed.

Lemma statistics_sum_lifecycle_witness :
  Forall has_lifecycle_status [A1; A2] ∧
  new (statistics [A1; A2]) + acknowledged (statistics [A1; A2]) +
  inProgress (statistics [A1; A2]) + resolved (statistics [A1; A2])
  = total (statistics [A1; A2]).
Proof.
  assert (Hall : Forall has_lifecycle_status [A1; A2]).
  { repeat constructor.
    - exists "New". split; [reflexivity | set_solver].
    - exists "In-Progress". split; [reflexivity | set_solver]. }
  split; [exact Hall | exact (statistics_sum_lifecycle [A1; A2] Hall)].
Defined.

(* ===================================================================== *)
(** * The timestamp *)
(* ===================================================================== *)

(** The constructor does not give the alert a timestamp, not even the one
    its argument carries. *)
Lemma Alert_timestamp_counterexample :
  A1 !! "timestamp" = Some (VString "2025-01-15T10:30:00.000Z") ∧
  Alert A1 !! "timestamp" = None ∧
  js_get (Alert A1) "timestamp" = VUndefined.
Proof. by vm_compute. Qed.

(** C3 (amended). The Alert constructor assigns exactly the fields id,
    severity, category, status and description, and no timestamp.  The
    timestamp property an alert of the collection has, or lacks, is never
    changed by the operations of the core: the status update keeps it for
    every alert whatever the outcome of the request, and filtering and a
    change of the filter criteria leave the collection as it is. *)
Theorem timestamp_never_mutated :
  (∀ arg : obj,
     dom (Alert arg) = {["id"; "severity"; "category"; "status"; "description"]}
     ∧ Alert arg !! "timestamp" = None) ∧
  (∀ (alertId newStatus : value) (net : fetch_outcome) (st : DashState),
     (fun a : obj => a !! "timestamp") <$>
       alerts (snd (handleStatusUpdate alertId newStatus net st))
     = (fun a : obj => a !! "timestamp") <$> alerts st) ∧
  (∀ st : DashState, alerts (snd (filteredAlerts st)) = alerts st) ∧
  (∀ (filterType v : string) (st : DashState),
     alerts (snd (handleFilterChange filterType v st)) = alerts st).
Proof.
  split; [|split; [|split]].
  - intros arg. split.
    + unfold Alert. rewrite !dom_insert_L, dom_empty_L. set_solver.
    + unfold Alert. by rewrite !lookup_insert_ne, lookup_empty.
  - intros alertId newStatus net st.
    destruct net as [|[|]].
    + by rewrite handleStatusUpdate_failed.
    + rewrite handleStatusUpdate_ok. cbn [snd alerts].
      rewrite <- list_fmap_compose. apply list_fmap_ext.
      intros i a _. cbn. by apply update_one_other_key.
    + by rewrite handleStatusUpdate_failed.
  - intros st. by rewrite filteredAlerts_unfold.
  - done.
Qed.

(* ===================================================================== *)
(** * Filtering *)
(* ===================================================================== *)

Lemma sample_alert_well_formed (i sev cat st desc : string) :
  well_formed (sample_alert i sev cat st desc).
Proof. repeat split; eexists; reflexivity. Qed.

Lemma filter_all_true {A} (l : list A) : List.filter (fun _ => true) l = l.
Proof. induction l as [|x l IH]; [done|]. simpl. by rewrite IH. Qed.

(** C4. On a collection of well-formed alerts the filter returns, and an
    alert is kept if and only if (severity is 'all' or equals the alert's
    severity up to case) and (status is 'all' or equals the alert's status
    once hyphens are removed and both sides lowercased) and (category is
    'all' or equals the alert's category up to case) and (search is empty or
    is, up to case, a substring of the alert's description or of its id).
    In particular 'inprogress' matches the stored status 'In-Progress'. *)
Theorem filteredAlerts_iff (st : DashState) :
  Forall well_formed (alerts st) →
  (∃ keep : obj → bool,
     (∀ a, a ∈ alerts st → (keep a = true ↔ passes_filter (filters st) a)) ∧
     filteredAlerts st = (Ok (List.filter keep (alerts st)), st) ∧
     (∀ a, a ∈ List.filter keep (alerts st) ↔
           a ∈ alerts st ∧ passes_filter (filters st) a)) ∧
  normalized "In-Progress" = normalized "inprogress".
Proof.
  intros Hwf. split; [|reflexivity].
  set (crit := filters st).
  set (keep := fun a => match filter_callback crit a with
                        | Ok b => b
                        | Throw _ => false
                        end).
  assert (Hkeep : ∀ a, a ∈ alerts st →
            filter_callback crit a = Ok (keep a) ∧
            (keep a = true ↔ passes_filter crit a)).
  { intros a Ha. rewrite Forall_forall in Hwf.
    destruct (filter_callback_well_formed crit a (Hwf a Ha)) as (b & Hb & Hiff).
    unfold keep. by rewrite Hb. }
  exists keep. split; [|split].
  - intros a Ha. by apply Hkeep.
  - rewrite filteredAlerts_unfold. f_equal. apply filter_res_Ok.
    apply Forall_forall. intros a Ha. by apply Hkeep.
  - intros a. rewrite !list_elem_of_In, List.filter_In, <- !list_elem_of_In.
    split; intros [Ha Hk]; (split; [done|]); by apply (Hkeep a Ha).
Qed.

Lemma filteredAlerts_iff_witness :
  let st := state_with [A1; A2; A3]
              {| severity := "all"; status := "inprogress"; category := "all";
                 search := "" |} in
  Forall well_formed (alerts st) ∧
  ((∃ keep : obj → bool,
      (∀ a, a ∈ alerts st → (keep a = true ↔ passes_filter (filters st) a)) ∧
      filteredAlerts st = (Ok (List.filter keep (alerts st)), st) ∧
      (∀ a, a ∈ List.filter keep (alerts st) ↔
            a ∈ alerts st ∧ passes_filter (filters st) a)) ∧
   normalized "In-Progress" = normalized "inprogress").
Proof.
  intros st.
  assert (Hwf : Forall well_formed (alerts st))
    by (repeat constructor; apply sample_alert_well_formed).
  split; [exact Hwf | exact (filteredAlerts_iff st Hwf)].
Defined.

(** The scenario of the status filter: 'inprogress' keeps the alerts stored
    as 'In-Progress' and as 'in-progress', and drops the new one. *)
Example filteredAlerts_inprogress :
  fst (filteredAlerts
         (state_with [A1; A2; A3]
            {| severity := "all"; status := "inprogress"; category := "all";
               search := "" |}))
  = Ok [A2; A3].
Proof. reflexivity. Qed.

(** The scenario of the severity filter: 'high' keeps the High alert only. *)
Example filteredAlerts_high :
  fst (filteredAlerts
         (state_with [A1; A2]
            {| severity := "high"; status := "all"; category := "all";
               search := "" |}))
  = Ok [A1].
Proof. reflexivity. Qed.

(** The scenario of the search: a substring of one description, in another
    case, keeps that alert; a string found nowhere keeps none. *)
Example filteredAlerts_search :
  fst (filteredAlerts
         (state_with [A1; A2; A3]
            {| severity := "all"; status := "all"; category := "all";
               search := "PUBLIC" |}))
  = Ok [A2] ∧
  fst (filteredAlerts
         (state_with [A1; A2; A3]
            {| severity := "all"; status := "all"; category := "all";
               search := "zzz" |}))
  = Ok [].
Proof. split; reflexivity. Qed.

(** C5. With severity, status and category all 'all' and an empty search,
    filtering returns the full collection, unchanged and in the same order
    (the alerts having a status string, as the data model says). *)
Theorem filteredAlerts_all (st : DashState) :
  Forall (fun a => has_string a "status") (alerts st) →
  filters st = initial_filters →
  filteredAlerts st = (Ok (alerts st), st).
Proof.
  intros Hst Hcrit. rewrite filteredAlerts_unfold, Hcrit. f_equal.
  rewrite <- (filter_all_true (alerts st)) at 2.
  apply filter_res_Ok. eapply Forall_impl; [exact Hst|].
  intros a [s Hs]. unfold filter_callback. by rewrite Hs.
Qed.

Lemma filteredAlerts_all_witness :
  let st := state_with [A1; A2; A3] initial_filters in
  Forall (fun a => has_string a "status") (alerts st) ∧
  filters st = initial_filters ∧
  filteredAlerts st = (Ok [A1; A2; A3], st).
Proof.
  intros st.
  assert (Hst : Forall (fun a => has_string a "status") (alerts st))
    by (repeat constructor; eexists; reflexivity).
  split; [exact Hst|]. split; [reflexivity|].
  exact (filteredAlerts_all st Hst eq_refl).
Defined.

(** C6. Filtering leaves the state, and with it the input collection, as
    it was, and its output is a subsequence of the input: every output
    element is an element of the input and the elements keep their relative
    order.  (The filter throws, a TypeError, only on a collection with an
    alert that is not well formed.) *)
Theorem filteredAlerts_subsequence (st : DashState) :
  snd (filteredAlerts st) = st ∧
  match fst (filteredAlerts st) with
  | Ok out => out `sublist_of` alerts st ∧ (∀ a, a ∈ out → a ∈ alerts st)
  | Throw e => e = TypeError ∧ ¬ Forall well_formed (alerts st)
  end.
Proof.
  rewrite filteredAlerts_unfold. split; [done|]. cbn [fst].
  destruct (filter_res _ _) as [out|e] eqn:Hrun.
  - apply filter_res_sublist in Hrun. split; [done|].
    intros a Ha. by eapply elem_of_sublist.
  - apply filter_res_Throw in Hrun as (a & Ha & Hthrow). split.
    + by eapply filter_callback_Throw.
    + intros Hwf. rewrite Forall_forall in Hwf.
      destruct (filter_callback_well_formed (filters st) a (Hwf a Ha)) as (b & Hb & _).
      congruence.
Qed.

(* ===================================================================== *)
(** * The status update *)
(* ===================================================================== *)

(** C7. After a status update that succeeds, the collection differs from
    the original only in the status of the alerts with the given id: the
    alert at each position keeps every field other than its status, an alert
    with the given id gets the new status, an alert with another id is
    unchanged, and the collection keeps its length; the rest of the state is
    as it was. *)
Theorem handleStatusUpdate_frame (alertId newStatus : value) (st : DashState)
    (i : nat) (a : obj) :
  alerts st !! i = Some a →
  let run := handleStatusUpdate alertId newStatus (Response true) st in
  fst run = Ok tt ∧
  length (alerts (snd run)) = length (alerts st) ∧
  (loading (snd run) = loading st ∧ error (snd run) = error st ∧
   filters (snd run) = filters st ∧ dialogs (snd run) = dialogs st) ∧
  ∃ a', alerts (snd run) !! i = Some a' ∧
        (∀ k, k ≠ "status" → a' !! k = a !! k) ∧
        (js_get a "id" = alertId → a' = <["status" := newStatus]> a) ∧
        (js_get a "id" ≠ alertId → a' = a).
Proof.
  intros Hi run. unfold run. rewrite handleStatusUpdate_ok. cbn [fst snd alerts].
  split; [done|]. split; [by rewrite length_map|]. split; [done|].
  exists (update_one alertId newStatus a). split; [|split; [|split]].
  - by rewrite list_lookup_fmap, Hi.
  - intros k Hk. by apply update_one_other_key.
  - intros Hid. unfold update_one, spread_with.
    apply strict_eq_true in Hid. by rewrite Hid.
  - intros Hid. unfold update_one.
    apply strict_eq_false in Hid. by rewrite Hid.
Qed.

Lemma handleStatusUpdate_frame_witness :
  let st := state_with [A1; A2; A3] initial_filters in
  let run := handleStatusUpdate (VString "A2") (VString "Resolved") (Response true) st in
  alerts st !! 1 = Some A2 ∧
  fst run = Ok tt ∧
  length (alerts (snd run)) = length (alerts st) ∧
  (loading (snd run) = loading st ∧ error (snd run) = error st ∧
   filters (snd run) = filters st ∧ dialogs (snd run) = dialogs st) ∧
  ∃ a', alerts (snd run) !! 1 = Some a' ∧
        (∀ k, k ≠ "status" → a' !! k = A2 !! k) ∧
        (js_get A2 "id" = VString "A2" → a' = <["status" := VString "Resolved"]> A2) ∧
        (js_get A2 "id" ≠ VString "A2" → a' = A2).
Proof.
  intros st run. split; [reflexivity|].
  exact (handleStatusUpdate_frame (VString "A2") (VString "Resolved") st 1 A2 eq_refl).
Defined.

(** The lifecycle scenario: three successful updates with the offered
    target take a new alert to Resolved, where no transition is offered. *)
Example advance_scenario :
  let advance (arr : list obj) (target : value) :=
    alerts (snd (handleStatusUpdate (VString "A1") target (Response true)
                   (state_with arr initial_filters))) in
  let s1 := advance [A1] (getNextStatus "New") in
  let s2 := advance s1 (getNextStatus "Acknowledged") in
  let s3 := advance s2 (getNextStatus "In-Progress") in
  (fun a => js_get a "status") <$> s1 = [VString "Acknowledged"] ∧
  (fun a => js_get a "status") <$> s2 = [VString "In-Progress"] ∧
  (fun a => js_get a "status") <$> s3 = [VString "Resolved"] ∧
  (fun a => match AlertCard a with Ok card => action card | Throw _ => None end)
    <$> s3 = [None].
Proof. repeat split; reflexivity. Qed.

(** C8. For an id that no alert of the collection has, the store answers a
    status request with NotFound (status code 404) and stays as it was; the
    per-id update map of the dashboard is the identity on such a collection,
    so the handler leaves the collection as it was whatever the outcome of
    the request, and on the 404 it shows the failure dialog. *)
Theorem unknown_id_NotFound (arr : list obj) (id : string) :
  Forall (fun a => js_get a "id" ≠ VString id) arr →
  (∀ target : string,
     updateAlertStatus arr id target = (arr, inl NotFound) ∧
     PUT_status_code (snd (updateAlertStatus arr id target)) = 404%Z) ∧
  (∀ newStatus : value, map (update_one (VString id) newStatus) arr = arr) ∧
  (∀ (newStatus : value) (net : fetch_outcome) (st : DashState),
     alerts st = arr →
     alerts (snd (handleStatusUpdate (VString id) newStatus net st)) = arr) ∧
  (∀ (target : string) (st : DashState),
     alerts st = arr →
     let net := response_of_code
                  (PUT_status_code (snd (updateAlertStatus arr id target))) in
     alerts (snd (handleStatusUpdate (VString id) (VString target) net st)) = arr ∧
     dialogs (snd (handleStatusUpdate (VString id) (VString target) net st))
     = dialogs st ++ ["Failed to update alert status. Please try again."]).
Proof.
  intros Habs.
  assert (Hstore : ∀ target, updateAlertStatus arr id target = (arr, inl NotFound)).
  { intros target. unfold updateAlertStatus. by rewrite find_absent. }
  split; [|split; [|split]].
  - intros target. by rewrite Hstore.
  - intros newStatus. by apply update_one_absent.
  - intros newStatus net st <-. destruct net as [|[|]].
    + by rewrite handleStatusUpdate_failed.
    + rewrite handleStatusUpdate_ok. cbn [snd alerts]. by apply update_one_absent.
    + by rewrite handleStatusUpdate_failed.
  - intros target st <- net. unfold net. rewrite Hstore. cbn [snd PUT_status_code].
    by rewrite handleStatusUpdate_failed.
Qed.

Lemma unknown_id_NotFound_witness :
  Forall (fun a => js_get a "id" ≠ VString "A9") [A1; A2] ∧
  updateAlertStatus [A1; A2] "A9" "Acknowledged" = ([A1; A2], inl NotFound) ∧
  map (update_one (VString "A9") (VString "Acknowledged")) [A1; A2] = [A1; A2].
Proof.
  assert (Habs : Forall (fun a => js_get a "id" ≠ VString "A9") [A1; A2])
    by (repeat constructor; discriminate).
  destruct (unknown_id_NotFound [A1; A2] "A9" Habs) as (Hstore & Hmap & _).
  split; [exact Habs|]. split; [apply Hstore | apply Hmap].
Defined.

(* ===================================================================== *)
(** * Statuses outside the lifecycle *)
(* ===================================================================== *)

(** For the status 'constructor', which is none of the four lifecycle
    values, the table lookup finds the member that every object inherits,
    not undefined. *)
Lemma getNextStatus_inherited_counterexample :
  ("constructor" ∉ lifecycle) ∧
  getNextStatus "constructor" = VBuiltin "Object" ∧
  getNextStatus "constructor" ≠ VUndefined.
Proof.
  split; [|split; [reflexivity | discriminate]].
  unfold lifecycle. intros Hin.
  repeat (apply elem_of_cons in Hin as [Hin | Hin]; [discriminate|]).
  by apply elem_of_nil in Hin.
Qed.

(** C9 (amended). For every alert whose status string is not one of the
    four lifecycle values, getNextStatus returns a value other than null:
    undefined when the string names no member of Object.prototype, and the
    inherited member otherwise.  The terminal check compares with null only,
    so such an alert is treated as transitionable and its card offers
    getNextStatus's value as the target. *)
Theorem getNextStatus_unknown (s : string) :
  s ∉ lifecycle →
  getNextStatus s ≠ VNull ∧
  canTransition (getNextStatus s) = true ∧
  (Object_prototype !! s = None → getNextStatus s = VUndefined) ∧
  (∀ v, Object_prototype !! s = Some v → getNextStatus s = v) ∧
  (∀ (alert : obj) (sev : string),
     js_get alert "status" = VString s →
     js_get alert "severity" = VString sev →
     ∃ card, AlertCard alert = Ok card ∧
             action card = Some (js_get alert "id", getNextStatus s)).
Proof.
  intros Hs.
  assert (Hget : getNextStatus s = default VUndefined (Object_prototype !! s)).
  { unfold getNextStatus, js_get. by rewrite transitions_other. }
  assert (Hnull : getNextStatus s ≠ VNull).
  { rewrite Hget. destruct (Object_prototype !! s) as [v|] eqn:Hv; [|done].
    apply Object_prototype_builtin in Hv as [name ->]. done. }
  assert (Hcan : canTransition (getNextStatus s) = true).
  { unfold canTransition. apply negb_true_iff. by apply strict_eq_false. }
  split; [done|]. split; [done|]. split; [|split].
  - intros Hnone. by rewrite Hget, Hnone.
  - intros v Hv. by rewrite Hget, Hv.
  - intros alert sev Hst Hsev. unfold AlertCard.
    rewrite Hst, Hsev. cbn [call_toLowerCase]. eexists. split; [reflexivity|].
    cbn [action]. by rewrite Hcan.
Qed.

Lemma getNextStatus_unknown_witness :
  ("in-progress" ∉ lifecycle) ∧
  getNextStatus "in-progress" = VUndefined ∧
  canTransition (getNextStatus "in-progress") = true ∧
  ∃ card, AlertCard A3 = Ok card ∧ action card = Some (VString "A3", VUndefined).
Proof.
  assert (Hs : "in-progress" ∉ lifecycle).
  { unfold lifecycle. intros Hin.
    repeat (apply elem_of_cons in Hin as [Hin | Hin]; [discriminate|]).
    by apply elem_of_nil in Hin. }
  destruct (getNextStatus_unknown "in-progress" Hs) as (_ & Hcan & Hundef & _ & Hcard).
  split; [exact Hs|]. split; [exact (Hundef eq_refl)|]. split; [exact Hcan|].
  exact (Hcard A3 "Medium" eq_refl eq_refl).
Defined.

(** C10. The per-status counts classify by exact equality with 'New',
    'Acknowledged', 'In-Progress' and 'Resolved': an alert whose status
    string is none of the four adds one to the total and nothing to any of
    the four counts, wherever it stands in the collection.  The filter
    matches more loosely: if that status differs from 'In-Progress' only in
    case or hyphenation, the status filter 'inprogress' keeps the alert. *)
Theorem statistics_exact_match (l1 l2 : list obj) (a : obj) (st : string) :
  js_get a "status" = VString st →
  st ∉ lifecycle →
  (new (statistics (l1 ++ a :: l2)) = new (statistics (l1 ++ l2)) ∧
   acknowledged (statistics (l1 ++ a :: l2)) = acknowledged (statistics (l1 ++ l2)) ∧
   inProgress (statistics (l1 ++ a :: l2)) = inProgress (statistics (l1 ++ l2)) ∧
   resolved (statistics (l1 ++ a :: l2)) = resolved (statistics (l1 ++ l2)) ∧
   total (statistics (l1 ++ a :: l2)) = S (total (statistics (l1 ++ l2)))) ∧
  (normalized st = normalized "In-Progress" →
   filter_callback
     {| severity := "all"; status := "inprogress"; category := "all"; search := "" |} a
   = Ok true).
Proof.
  intros Hst Hout.
  assert (Hne : ∀ s, s ∈ lifecycle → js_get a "status" ≠ VString s).
  { intros s Hs Heq. rewrite Hst in Heq. injection Heq as ->. done. }
  split.
  - cbn [statistics new acknowledged inProgress resolved total].
    rewrite !count_where_skip by (apply Hne; unfold lifecycle; set_solver).
    repeat split. rewrite !length_app. cbn [length]. lia.
  - intros Hnorm. unfold filter_callback. rewrite Hst.
    cbn [call_toLowerCase]. simpl. rewrite normalized_code, Hnorm.
    reflexivity.
Qed.

Lemma statistics_exact_match_witness :
  js_get A3 "status" = VString "in-progress" ∧
  ("in-progress" ∉ lifecycle) ∧
  statistics [A1; A3; A2] =
    {| new := 1; acknowledged := 0; inProgress := 1; resolved := 0; total := 3 |} ∧
  total (statistics [A1; A3; A2]) = S (total (statistics [A1; A2])) ∧
  filter_callback
    {| severity := "all"; status := "inprogress"; category := "all"; search := "" |} A3
  = Ok true.
Proof.
  assert (Hs : "in-progress" ∉ lifecycle).
  { unfold lifecycle. intros Hin.
    repeat (apply elem_of_cons in Hin as [Hin | Hin]; [discriminate|]).
    by apply elem_of_nil in Hin. }
  destruct (statistics_exact_match [A1] [A2] A3 "in-progress" eq_refl Hs)
    as [(_ & _ & _ & _ & Htotal) Hfilter].
  split; [reflexivity|]. split; [exact Hs|]. split; [reflexivity|].
  split; [exact Htotal | exact (Hfilter eq_refl)].
Defined.


(* ===================================================================== *)
(** * Fetching *)
(* ===================================================================== *)

Lemma fetchAlerts_delivered (net : alerts_fetch) (l : list obj) (st : DashState) :
  delivered net = Some l →
  fetchAlerts net st =
  (Ok tt, {| alerts := l; loading := false; error := VNull;
             filters := filters st; dialogs := dialogs st |}).
Proof.
  unfold delivered, fetchAlerts.
  destruct net as [msg | code [msg | data | data | data]]; try done;
    destruct (response_ok code) eqn:Hok; try done;
    intros [= <-]; reflexivity.
Qed.

Lemma fetchAlerts_not_delivered (net : alerts_fetch) (st : DashState) :
  delivered net = None →
  ∃ msg, fetchAlerts net st =
  (Ok tt, {| alerts := alerts st; loading := false; error := VString msg;
             filters := filters st; dialogs := dialogs st |}).
Proof.
  unfold delivered, fetchAlerts.
  destruct net as [msg | code [msg | data | data | data]];
    try destruct (response_ok code) eqn:Hok; try done; intros _;
    eexists; reflexivity.
Qed.

Lemma fetchAlerts_failed_with (net : alerts_fetch) (msg : string) (st : DashState) :
  failed_with net msg →
  fetchAlerts net st =
  (Ok tt, {| alerts := alerts st; loading := false; error := VString msg;
             filters := filters st; dialogs := dialogs st |}).
Proof.
  destruct net as [m | code body]; cbn [failed_with].
  - by intros ->.
  - unfold fetchAlerts.
    destruct (response_ok code) eqn:Hok; intros ->; reflexivity.
Qed.

(** X22. A manual refresh ends in the state in which a fetch with the same
    outcome ends: the loading flag it raises is lowered again by the fetch,
    whether the request succeeds or fails. *)
Theorem handleManualRefresh_fetchAlerts (net : alerts_fetch) (st : DashState) :
  handleManualRefresh net st = fetchAlerts net st.
Proof.
  unfold handleManualRefresh, fetchAlerts.
  destruct net as [m | code body]; [reflexivity|].
  destruct (response_ok code); [destruct body|]; reflexivity.
Qed.

(** X1. A fetch that fails keeps the alerts that are there: after a rejected
    request, after a response that is not ok (whatever its body, a valid
    array included) and after a body that does not parse, the collection is
    the one before, the error is the message of the failure, loading is
    off, and the handler has not thrown. *)
Theorem fetchAlerts_failure_keeps_alerts (st : DashState) :
  (∀ msg, fetchAlerts (NetworkError msg) st =
          (Ok tt, {| alerts := alerts st; loading := false; error := VString msg;
                     filters := filters st; dialogs := dialogs st |})) ∧
  (∀ code body, response_ok code = false →
     fetchAlerts (HttpResponse code body) st =
     (Ok tt, {| alerts := alerts st; loading := false;
                error := VString ("HTTP error! status: " +:+ pretty code);
                filters := filters st; dialogs := dialogs st |})) ∧
  (∀ code msg, response_ok code = true →
     fetchAlerts (HttpResponse code (InvalidJSON msg)) st =
     (Ok tt, {| alerts := alerts st; loading := false; error := VString msg;
                filters := filters st; dialogs := dialogs st |})).
Proof.
  split; [|split].
  - reflexivity.
  - intros code body Hok. unfold fetchAlerts, try_finally, try_catch. simpl.
    by rewrite Hok.
  - intros code msg Hok. unfold fetchAlerts, try_finally, try_catch. simpl.
    by rewrite Hok.
Qed.

Lemma fetchAlerts_failure_keeps_alerts_witness :
  fetchAlerts (HttpResponse 503 (JSONArray [A2])) (state_with [A1] initial_filters) =
  (Ok tt, {| alerts := [A1]; loading := false;
             error := VString "HTTP error! status: 503";
             filters := initial_filters; dialogs := [] |}).
Proof.
  exact (proj1 (proj2 (fetchAlerts_failure_keeps_alerts (state_with [A1] initial_filters)))
           503%Z (JSONArray [A2]) eq_refl).
Defined.

(** X2. A fetch that succeeds replaces the collection by the array of the
    body, whatever the collection was before (an optimistic update that the
    server did not take is gone), clears the error and turns loading off;
    a body that parses to something that is not an array empties the
    collection.  The filter criteria are never touched. *)
Theorem fetchAlerts_success_replaces (code : Z) (body : response_body)
    (st : DashState) :
  response_ok code = true →
  (∀ msg, body ≠ InvalidJSON msg) →
  let st' := snd (fetchAlerts (HttpResponse code body) st) in
  fst (fetchAlerts (HttpResponse code body) st) = Ok tt ∧
  alerts st' = match body with JSONArray l => l | _ => [] end ∧
  error st' = VNull ∧ loading st' = false ∧
  filters st' = filters st ∧ dialogs st' = dialogs st ∧
  ∀ arr, fetchAlerts (HttpResponse code body) (with_alerts arr st)
         = fetchAlerts (HttpResponse code body) st.
Proof.
  intros Hok Hbody st'. unfold st'. clear st'.
  assert (Hdel : delivered (HttpResponse code body)
                 = Some (match body with JSONArray l => l | _ => [] end)).
  { unfold delivered. destruct body as [msg | l | o | v]; rewrite ?Hok; try done.
    by destruct (Hbody msg). }
  rewrite (fetchAlerts_delivered _ _ st Hdel). repeat split.
  intros arr. by rewrite (fetchAlerts_delivered _ _ _ Hdel).
Qed.

Lemma fetchAlerts_success_replaces_witness :
  let st := state_with [A1; A3] initial_filters in
  let st' := snd (fetchAlerts (HttpResponse 200 (JSONArray [A2])) st) in
  alerts st' = [A2] ∧ error st' = VNull ∧ loading st' = false.
Proof.
  intros st st'.
  destruct (fetchAlerts_success_replaces 200 (JSONArray [A2]) st eq_refl)
    as (_ & Halerts & Herror & Hloading & _); [done|].
  split; [exact Halerts|]. split; [exact Herror | exact Hloading].
Defined.

(** X3. After any sequence of fetches (the first load and the periodic
    refreshes) the collection is the array of the last fetch that
    succeeded, and the collection from before if none did; the error is
    null exactly when the last fetch of the sequence succeeded. *)
Theorem refreshes_last_delivered (nets : list alerts_fetch) (st : DashState) :
  let st' := snd (refreshes nets st) in
  fst (refreshes nets st) = Ok tt ∧
  alerts st' = default (alerts st) (last_delivered nets) ∧
  filters st' = filters st ∧ dialogs st' = dialogs st ∧
  (∀ net, last nets = Some net →
     loading st' = false ∧ (error st' = VNull ↔ is_Some (delivered net))).
Proof.
  revert st. induction nets as [|net rest IH]; intros st; cbn zeta.
  - repeat split; done.
  - cbn [refreshes]. unfold mbind, M_bind.
    destruct (delivered net) as [l|] eqn:Hdel.
    + rewrite (fetchAlerts_delivered _ _ _ Hdel).
      specialize (IH {| alerts := l; loading := false; error := VNull;
                        filters := filters st; dialogs := dialogs st |}).
      cbn zeta in IH. destruct IH as (Hok & Halerts & Hfil & Hdia & Hlast).
      split; [done|]. split; [|split; [done|split; [done|]]].
      * rewrite Halerts. cbn [last_delivered alerts]. rewrite Hdel.
        by destruct (last_delivered rest).
      * intros net' Hnet'. destruct rest as [|net'' rest].
        -- injection Hnet' as <-. cbn. rewrite Hdel. split; [done|]. split; eauto.
        -- by apply Hlast.
    + destruct (fetchAlerts_not_delivered net st Hdel) as [msg ->].
      specialize (IH {| alerts := alerts st; loading := false; error := VString msg;
                        filters := filters st; dialogs := dialogs st |}).
      cbn zeta in IH. destruct IH as (Hok & Halerts & Hfil & Hdia & Hlast).
      split; [done|]. split; [|split; [done|split; [done|]]].
      * rewrite Halerts. cbn [last_delivered alerts]. rewrite Hdel.
        by destruct (last_delivered rest).
      * intros net' Hnet'. destruct rest as [|net'' rest].
        -- injection Hnet' as <-. cbn. rewrite Hdel. split; [done|].
           split; [done | by intros [? ?]].
        -- by apply Hlast.
Qed.

Lemma refreshes_last_delivered_witness :
  let nets := [HttpResponse 200 (JSONArray [A1; A2]); NetworkError "Failed to fetch"] in
  let st' := snd (refreshes nets initial_state) in
  last nets = Some (NetworkError "Failed to fetch") ∧
  alerts st' = [A1; A2] ∧ loading st' = false ∧ error st' ≠ VNull.
Proof.
  intros nets st'.
  destruct (refreshes_last_delivered nets initial_state)
    as (_ & Halerts & _ & _ & Hlast).
  destruct (Hlast _ eq_refl) as [Hloading Herror].
  split; [reflexivity|]. split; [exact Halerts|]. split; [exact Hloading|].
  intros Hnull. apply Herror in Hnull. by destruct Hnull.
Defined.

(* ===================================================================== *)
(** * More on filtering *)
(* ===================================================================== *)

Lemma string_app_cons (x : ascii) (a b : string) :
  String x a +:+ b = String x (a +:+ b).
Proof. reflexivity. Qed.



Lemma toLowerCase_empty (s : string) : toLowerCase s = "" ↔ s = "".
Proof. by destruct s. Qed.




Lemma filter_res_idem {A} (f : A → result bool) (l out : list A) :
  filter_res f l = Ok out → filter_res f out = Ok out.
Proof.
  revert out. induction l as [|x l IH]; intros out; simpl.
  - by intros [= <-].
  - destruct (f x) as [keep|e] eqn:Hx; simpl; [|done].
    destruct (filter_res f l) as [kept|e]; simpl; [|done].
    intros [= <-]. destruct keep; [|by apply IH].
    simpl. rewrite Hx. simpl. by rewrite (IH kept).
Qed.




(** X4. Filtering is idempotent: the filter applied, with the same
    criteria, to its own output returns that output. *)
Theorem filteredAlerts_idempotent (st : DashState) (out : list obj) :
  fst (filteredAlerts st) = Ok out →
  filteredAlerts (with_alerts out st) = (Ok out, with_alerts out st).
Proof.
  rewrite !filteredAlerts_unfold. cbn [fst]. intros Hout.
  f_equal. by eapply filter_res_idem.
Qed.

Lemma filteredAlerts_idempotent_witness :
  let st := state_with [A1; A2; A3]
              {| severity := "all"; status := "In-Progress"; category := "all";
                 search := "p" |} in
  fst (filteredAlerts st) = Ok [A2; A3] ∧
  filteredAlerts (with_alerts [A2; A3] st) = (Ok [A2; A3], with_alerts [A2; A3] st).
Proof.
  intros st. split; [reflexivity|].
  exact (filteredAlerts_idempotent st [A2; A3] eq_refl).
Defined.



(** X6. The filter reads its criteria up to case: two sets of criteria
    whose search strings are equal up to case, and whose severity, category
    and status are the same or are two values other than 'all' that are
    equal up to case (and hyphens, for the status), give the same result on
    every alert, an exception included, and so the same filtered output. *)
Theorem filteredAlerts_same_criteria (crit crit' : Filters) (st : DashState) :
  same_criteria crit crit' →
  (∀ alert, filter_callback crit alert = filter_callback crit' alert) ∧
  fst (filteredAlerts (with_filters crit st))
  = fst (filteredAlerts (with_filters crit' st)).
Proof.
  intros (Hsev & Hst & Hcat & Hsearch).
  assert (Hcb : ∀ alert, filter_callback crit alert = filter_callback crit' alert).
  { intros alert. unfold filter_callback.
    assert (Hempty : truthy (VString (search crit)) = truthy (VString (search crit'))).
    { simpl. f_equal. apply bool_decide_ext.
      rewrite <- (toLowerCase_empty (search crit)), Hsearch.
      apply toLowerCase_empty. }
    rewrite Hempty, Hsearch. clear Hempty Hsearch.
    assert (Hsel : ∀ norm c c', same_choice norm c c' →
              bool_decide (c = "all") = bool_decide (c' = "all") ∧ norm c = norm c').
    { intros norm c c' [-> | (Hc & Hc' & Hn)]; [done|].
      by rewrite !bool_decide_eq_false_2. }
    destruct (Hsel _ _ _ Hsev) as [-> ->].
    destruct (Hsel _ _ _ Hcat) as [-> ->].
    destruct (Hsel _ _ _ Hst) as [-> Hn].
    rewrite <- !normalized_code in Hn. by rewrite Hn. }
  split; [exact Hcb|].
  rewrite !filteredAlerts_unfold. cbn [fst filters alerts with_filters].
  induction (alerts st) as [|a l IH]; [done|].
  simpl. by rewrite Hcb, IH.
Qed.

Lemma filteredAlerts_same_criteria_witness :
  let crit := {| severity := "HIGH"; status := "In-Progress"; category := "all";
                 search := "Bucket" |} in
  let crit' := {| severity := "high"; status := "inprogress"; category := "all";
                  search := "bUCKET" |} in
  same_criteria crit crit' ∧
  fst (filteredAlerts (with_filters crit (state_with [A1; A2; A3] initial_filters)))
  = fst (filteredAlerts (with_filters crit' (state_with [A1; A2; A3] initial_filters))).
Proof.
  intros crit crit'.
  assert (Hsame : same_criteria crit crit').
  { repeat split; try (by left); right; by repeat split. }
  split; [exact Hsame|].
  exact (proj2 (filteredAlerts_same_criteria crit crit'
                  (state_with [A1; A2; A3] initial_filters) Hsame)).
Defined.

(* ===================================================================== *)
(** * More on the status update *)
(* ===================================================================== *)

Lemma js_get_update_one_ne (alertId newStatus : value) (a : obj) (k : string) :
  k ≠ "status" → js_get (update_one alertId newStatus a) k = js_get a k.
Proof. intros Hk. unfold js_get. by rewrite update_one_other_key. Qed.

Lemma js_get_update_one_status (alertId newStatus : value) (a : obj) :
  js_get a "id" = alertId →
  js_get (update_one alertId newStatus a) "status" = newStatus.
Proof.
  intros Hid. unfold update_one. apply strict_eq_true in Hid. rewrite Hid.
  apply js_get_spread_eq.
Qed.

Lemma count_where_update_one (alertId newStatus : value) (field s : string)
    (arr : list obj) :
  field ≠ "status" →
  count_where field s (map (update_one alertId newStatus) arr) = count_where field s arr.
Proof.
  intros Hfield. induction arr as [|a arr IH]; [done|].
  cbn [map]. by rewrite !count_where_cons, IH, js_get_update_one_ne.
Qed.

Lemma update_one_twice (alertId s1 s2 : value) (a : obj) :
  update_one alertId s2 (update_one alertId s1 a) = update_one alertId s2 a.
Proof.
  unfold update_one at 1 3. rewrite js_get_update_one_ne by done.
  destruct (strict_eq (js_get a "id") alertId) eqn:Hid; unfold update_one;
    rewrite Hid; [|done].
  unfold spread_with. apply insert_insert_eq.
Qed.

Lemma update_one_comm (id1 id2 s1 s2 : value) (a : obj) :
  id1 ≠ id2 →
  update_one id2 s2 (update_one id1 s1 a) = update_one id1 s1 (update_one id2 s2 a).
Proof.
  intros Hne. unfold update_one at 1 3. rewrite !js_get_update_one_ne by done.
  unfold update_one, strict_eq. repeat case_bool_decide; congruence.
Qed.

(** X7. A status update never throws and, whatever the outcome of its
    request, keeps the number of alerts, the id of the alert at every
    position, the category counts, the filter criteria, and the loading and
    error flags. *)
Theorem handleStatusUpdate_preserves (alertId newStatus : value)
    (net : fetch_outcome) (st : DashState) :
  let st' := snd (handleStatusUpdate alertId newStatus net st) in
  fst (handleStatusUpdate alertId newStatus net st) = Ok tt ∧
  length (alerts st') = length (alerts st) ∧
  (fun a => js_get a "id") <$> alerts st' = (fun a => js_get a "id") <$> alerts st ∧
  categoryCounts (alerts st') = categoryCounts (alerts st) ∧
  total (statistics (alerts st')) = total (statistics (alerts st)) ∧
  filters st' = filters st ∧ loading st' = loading st ∧ error st' = error st.
Proof.
  destruct net as [|[|]]; cbn zeta.
  - by rewrite handleStatusUpdate_failed.
  - rewrite handleStatusUpdate_ok. cbn [fst snd alerts filters loading error].
    split; [done|]. split; [by rewrite length_map|]. split.
    { rewrite <- list_fmap_compose. apply list_fmap_ext. intros i a _. cbn.
      by apply js_get_update_one_ne. }
    split; [unfold categoryCounts; by rewrite !count_where_update_one|].
    cbn [statistics total]. by rewrite length_map.
  - by rewrite handleStatusUpdate_failed.
Qed.

(** X8. Successful status updates compose as assignments do: of two updates
    for the same id the later one wins (so repeating an update changes
    nothing), and updates for two different ids commute. *)
Theorem handleStatusUpdate_compose (id1 id2 s1 s2 : value) (st : DashState) :
  let run alertId newStatus st :=
    snd (handleStatusUpdate alertId newStatus (Response true) st) in
  run id1 s2 (run id1 s1 st) = run id1 s2 st ∧
  run id1 s1 (run id1 s1 st) = run id1 s1 st ∧
  (id1 ≠ id2 → run id2 s2 (run id1 s1 st) = run id1 s1 (run id2 s2 st)).
Proof.
  intros run. unfold run. clear run.
  rewrite !handleStatusUpdate_ok. cbn [snd alerts loading error filters dialogs].
  split; [|split].
  - f_equal. rewrite <- list_fmap_compose. apply list_fmap_ext.
    intros i a _. apply update_one_twice.
  - f_equal. rewrite <- list_fmap_compose. apply list_fmap_ext.
    intros i a _. apply update_one_twice.
  - intros Hne. f_equal. rewrite <- !list_fmap_compose. apply list_fmap_ext.
    intros i a _. by apply update_one_comm.
Qed.

Lemma handleStatusUpdate_compose_witness :
  let run alertId newStatus st :=
    snd (handleStatusUpdate alertId newStatus (Response true) st) in
  let st := state_with [A1; A2; A3] initial_filters in
  VString "A1" ≠ VString "A2" ∧
  run (VString "A2") (VString "Resolved") (run (VString "A1") (VString "Acknowledged") st)
  = run (VString "A1") (VString "Acknowledged") (run (VString "A2") (VString "Resolved") st).
Proof.
  intros run st. split; [discriminate|].
  exact (proj2 (proj2 (handleStatusUpdate_compose (VString "A1") (VString "A2")
                         (VString "Acknowledged") (VString "Resolved") st))
           ltac:(discriminate)).
Defined.

(** X9. A successful update of the one alert with the given id, from the
    status [s] to the status [t], moves one alert from the count of [s] to
    the count of [t]: each of the four counts, with one added if [s] is its
    status, equals the count before, with one added if [t] is its status;
    the total stays. *)
Theorem handleStatusUpdate_statistics (l1 l2 : list obj) (a : obj)
    (alertId : value) (s t : string) (st : DashState) :
  alerts st = l1 ++ a :: l2 →
  Forall (fun b => js_get b "id" ≠ alertId) l1 →
  Forall (fun b => js_get b "id" ≠ alertId) l2 →
  js_get a "id" = alertId →
  js_get a "status" = VString s →
  let before := statistics (alerts st) in
  let after :=
    statistics (alerts (snd (handleStatusUpdate alertId (VString t) (Response true) st))) in
  let one (x y : string) : nat := if bool_decide (x = y) then 1 else 0 in
  new after + one s "New" = new before + one t "New" ∧
  acknowledged after + one s "Acknowledged" = acknowledged before + one t "Acknowledged" ∧
  inProgress after + one s "In-Progress" = inProgress before + one t "In-Progress" ∧
  resolved after + one s "Resolved" = resolved before + one t "Resolved" ∧
  total after = total before.
Proof.
  intros Harr Hl1 Hl2 Hid Hst. cbn zeta.
  rewrite handleStatusUpdate_ok. cbn [snd alerts]. rewrite Harr.
  rewrite map_app. cbn [map]. rewrite !update_one_absent by done.
  assert (Hcount : ∀ u,
    count_where "status" u (l1 ++ update_one alertId (VString t) a :: l2)
      + (if bool_decide (s = u) then 1 else 0)
    = count_where "status" u (l1 ++ a :: l2)
      + (if bool_decide (t = u) then 1 else 0)).
  { intros u. rewrite !count_where_app, !count_where_cons.
    rewrite js_get_update_one_status, Hst by done. unfold strict_eq.
    repeat case_bool_decide; try congruence; lia. }
  cbn [statistics new acknowledged inProgress resolved total].
  repeat split; try apply Hcount. rewrite !length_app. by cbn.
Qed.

Lemma handleStatusUpdate_statistics_witness :
  let st := state_with [A1; A2; A3] initial_filters in
  let after :=
    statistics (alerts (snd (handleStatusUpdate (VString "A1") (VString "Acknowledged")
                               (Response true) st))) in
  statistics (alerts st) =
    {| new := 1; acknowledged := 0; inProgress := 1; resolved := 0; total := 3 |} ∧
  new after + 1 = 1 + 0 ∧ acknowledged after + 0 = 0 + 1 ∧ total after = 3.
Proof.
  intros st after.
  destruct (handleStatusUpdate_statistics [] [A2; A3] A1 (VString "A1")
              "New" "Acknowledged" st eq_refl)
    as (Hnew & Hack & _ & _ & Htotal);
    [constructor | repeat constructor; discriminate | reflexivity | reflexivity |].
  split; [reflexivity|]. split; [exact Hnew|]. split; [exact Hack | exact Htotal].
Defined.

(* ===================================================================== *)
(** * More on the alert card *)
(* ===================================================================== *)



Lemma AlertCard_strings (alert : obj) (s sev : string) :
  js_get alert "status" = VString s →
  js_get alert "severity" = VString sev →
  AlertCard alert =
  Ok {| card_className := "alert-card severity-" +:+ toLowerCase sev;
        status_badge := "badge badge-status " +:+ remove_first_hyphen (toLowerCase s);
        action := if canTransition (getNextStatus s)
                  then Some (js_get alert "id", getNextStatus s) else None |}.
Proof. intros Hs Hsev. unfold AlertCard. by rewrite Hs, Hsev. Qed.


Lemma remove_first_hyphen_hyphens (s : string) :
  remove_first_hyphen s = remove_hyphens s ↔ hyphens s ≤ 1.
Proof.
  assert (Hnone : ∀ r, hyphens r = 0 → remove_hyphens r = r).
  { induction r as [|c r IH]; [done|]. simpl.
    destruct (Ascii.eqb c "-"); [done|]. intros Hr. by rewrite IH. }
  assert (Hlen : ∀ r, String.length (remove_hyphens r) + hyphens r = String.length r).
  { induction r as [|c r IH]; [done|]. simpl.
    destruct (Ascii.eqb c "-"); simpl; lia. }
  induction s as [|c s IH]; [simpl; split; [lia | done]|].
  simpl. destruct (Ascii.eqb c "-") eqn:Hc.
  - split.
    + intros Heq. pose proof (Hlen s) as Hs. rewrite <- Heq in Hs. lia.
    + intros Hle. symmetry. apply Hnone. lia.
  - rewrite <- IH. split; [by intros [= ->] | by intros ->].
Qed.

Lemma hyphens_toLowerCase (s : string) : hyphens (toLowerCase s) = hyphens s.
Proof.
  induction s as [|c s IH]; [done|].
  simpl. by rewrite toLowerCase_unit_hyphen, IH.
Qed.

(** X11. The class of the status badge is made with a replacement of the
    first hyphen only, the filter's normalisation with a replacement of all:
    the badge class of a card is 'badge badge-status ' followed by the
    normalised status exactly when the status has at most one hyphen. *)
Theorem AlertCard_status_badge (alert : obj) (s : string) (card : Card) :
  js_get alert "status" = VString s →
  AlertCard alert = Ok card →
  (status_badge card = "badge badge-status " +:+ normalized s ↔ hyphens s ≤ 1).
Proof.
  intros Hs. unfold AlertCard. rewrite Hs.
  destruct (js_get alert "severity"); try done. simpl. intros [= <-].
  cbn [status_badge]. rewrite <- hyphens_toLowerCase, <- remove_first_hyphen_hyphens,
    normalized_code.
  split; [|by intros ->]. intros Heq.
  by repeat (rewrite !string_app_cons in Heq; injection Heq as Heq).
Qed.

Lemma AlertCard_status_badge_witness :
  ∃ card, js_get A2 "status" = VString "In-Progress" ∧ AlertCard A2 = Ok card ∧
          status_badge card = "badge badge-status inprogress".
Proof.
  eexists. split; [reflexivity|]. split; [reflexivity|].
  apply (AlertCard_status_badge A2 "In-Progress" _ eq_refl eq_refl).
  simpl. lia.
Defined.

(** X12. Pressing the button of a card works as the card says: if the card
    of an alert of the collection offers a transition and the update
    succeeds, the alert at that position has the offered target as its
    status and is otherwise as before, and the target is what the status
    table gives for the old status, which was not 'Resolved'. *)
Theorem click_advances (st : DashState) (i : nat) (a : obj) (card : Card)
    (alertId target : value) :
  alerts st !! i = Some a →
  AlertCard a = Ok card →
  action card = Some (alertId, target) →
  let st' := snd (handleStatusUpdate alertId target (Response true) st) in
  ∃ a' s,
    alerts st' !! i = Some a' ∧
    a' = <["status" := target]> a ∧
    js_get a' "status" = target ∧
    js_get a "status" = VString s ∧ s ≠ "Resolved" ∧ target = getNextStatus s.
Proof.
  intros Hi Hcard Haction. cbn zeta. rewrite handleStatusUpdate_ok. cbn [snd alerts].
  unfold AlertCard in Hcard.
  destruct (js_get a "status") as [| | | |s|] eqn:Hs; try done.
  destruct (js_get a "severity"); try done. simpl in Hcard.
  injection Hcard as <-. cbn [action] in Haction.
  destruct (canTransition (getNextStatus s)) eqn:Hcan; [|done].
  injection Haction as <- <-.
  exists (update_one (js_get a "id") (getNextStatus s) a), s.
  split; [by rewrite list_lookup_fmap, Hi|].
  split; [unfold update_one, spread_with, strict_eq; by rewrite bool_decide_eq_true_2|].
  split; [by apply js_get_update_one_status|].
  split; [done|]. split; [|done].
  intros ->. by vm_compute in Hcan.
Qed.

Lemma click_advances_witness :
  let st := state_with [A1; A2; A3] initial_filters in
  ∃ card a',
    alerts st !! 0 = Some A1 ∧ AlertCard A1 = Ok card ∧
    action card = Some (VString "A1", VString "Acknowledged") ∧
    alerts (snd (handleStatusUpdate (VString "A1") (VString "Acknowledged")
                   (Response true) st)) !! 0 = Some a' ∧
    js_get a' "status" = VString "Acknowledged".
Proof.
  intros st.
  destruct (click_advances st 0 A1 _ (VString "A1") (VString "Acknowledged")
              eq_refl eq_refl eq_refl) as (a' & s & Hi & _ & Hstatus & _).
  eexists _, a'. split; [reflexivity|]. split; [reflexivity|].
  split; [reflexivity|]. split; [exact Hi | exact Hstatus].
Defined.

Lemma filter_res_Throw_at {A} (f : A → result bool) (l : list A) (x : A) (e : exn) :
  x ∈ l → f x = Throw e → ∃ e', filter_res f l = Throw e'.
Proof.
  induction l as [|y l IH]; intros Hin Hx; [by apply elem_of_nil in Hin|].
  simpl. destruct (f y) as [keep|e'] eqn:Hy; simpl; [|eauto].
  apply elem_of_cons in Hin as [-> | Hin]; [congruence|].
  destruct (IH Hin Hx) as [e' ->]. simpl. eauto.
Qed.

(** X13. The button of an alert whose status is outside the table is a
    trap: for a status string that is neither a lifecycle value nor the name
    of a member of Object.prototype the offered target is undefined, and once
    an update with it succeeds the status of the alert is undefined, so that
    the filter, and with it the render of the dashboard, throws a TypeError
    under every choice of criteria. *)
Theorem click_unknown_status_breaks_render (st : DashState) (i : nat) (a : obj)
    (s : string) :
  alerts st !! i = Some a →
  js_get a "status" = VString s →
  has_string a "severity" →
  s ∉ lifecycle →
  Object_prototype !! s = None →
  ∃ card,
    AlertCard a = Ok card ∧
    action card = Some (js_get a "id", VUndefined) ∧
    ∀ crit,
      let st' := with_filters crit
                   (snd (handleStatusUpdate (js_get a "id") VUndefined
                           (Response true) st)) in
      fst (filteredAlerts st') = Throw TypeError ∧
      fst (Dashboard st') = Throw TypeError.
Proof.
  intros Hi Hs [sev Hsev] Hout Hproto.
  assert (Hnext : getNextStatus s = VUndefined).
  { unfold getNextStatus, js_get. by rewrite transitions_other, Hproto. }
  eexists. split; [by apply AlertCard_strings|]. cbn [action].
  rewrite Hnext. split; [done|]. intros crit. cbn zeta.
  rewrite handleStatusUpdate_ok. cbn [snd].
  assert (Hthrow : fst (filteredAlerts
            (with_filters crit
               {| alerts := map (update_one (js_get a "id") VUndefined) (alerts st);
                  loading := loading st; error := error st; filters := filters st;
                  dialogs := dialogs st |})) = Throw TypeError).
  { rewrite filteredAlerts_unfold. cbn [fst with_filters alerts filters].
    set (a' := update_one (js_get a "id") VUndefined a).
    assert (Hin : a' ∈ map (update_one (js_get a "id") VUndefined) (alerts st)).
    { apply list_elem_of_lookup. exists i. by rewrite list_lookup_fmap, Hi. }
    assert (Ha' : filter_callback crit a' = Throw TypeError).
    { unfold filter_callback.
      replace (js_get a' "status") with VUndefined
        by (symmetry; by apply js_get_update_one_status).
      destruct (bool_decide (severity crit = "all")); [done|].
      unfold a'. by rewrite (js_get_update_one_ne _ _ a "severity"), Hsev. }
    destruct (filter_res_Throw_at _ _ _ _ Hin Ha') as [e He].
    rewrite He. f_equal.
    apply filter_res_Throw in He as (b & _ & Hb).
    by apply filter_callback_Throw in Hb. }
  split; [exact Hthrow|].
  unfold Dashboard, mbind, M_bind.
  destruct (filteredAlerts _) as [[out|e] st''] eqn:Hrun; cbn [fst] in *; congruence.
Qed.

Lemma click_unknown_status_breaks_render_witness :
  let st := state_with [A1; A2; A3] initial_filters in
  ∃ card,
    AlertCard A3 = Ok card ∧ action card = Some (VString "A3", VUndefined) ∧
    fst (Dashboard (with_filters initial_filters
           (snd (handleStatusUpdate (VString "A3") VUndefined (Response true) st))))
    = Throw TypeError.
Proof.
  intros st.
  assert (Hout : "in-progress" ∉ lifecycle).
  { unfold lifecycle. intros Hin.
    repeat (apply elem_of_cons in Hin as [Hin | Hin]; [discriminate|]).
    by apply elem_of_nil in Hin. }
  destruct (click_unknown_status_breaks_render st 2 A3 "in-progress"
              eq_refl eq_refl (ex_intro _ "Medium" eq_refl) Hout eq_refl)
    as (card & Hcard & Haction & Hbreak).
  exists card. split; [exact Hcard|]. split; [exact Haction|].
  exact (proj2 (Hbreak initial_filters)).
Defined.

(* ===================================================================== *)
(** * More on the model class and on the aggregation *)
(* ===================================================================== *)

Lemma js_get_Alert (arg : obj) (k : string) :
  k ∈ Alert_fields → js_get (Alert arg) k = js_get arg k.
Proof.
  intros Hk. unfold Alert_fields in Hk.
  repeat (apply elem_of_cons in Hk as [-> | Hk]; [reflexivity|]).
  by apply elem_of_nil in Hk.
Qed.

(** X14. The constructor keeps the five fields of its argument as they are
    (a missing one becomes undefined), drops every other property, and is
    idempotent; the alert it builds is well formed exactly when the
    argument is. *)
Theorem Alert_projection (arg : obj) :
  (∀ k, k ∈ Alert_fields → js_get (Alert arg) k = js_get arg k) ∧
  (∀ k, k ∈ Alert_fields → is_Some (Alert arg !! k)) ∧
  (∀ k, k ∉ Alert_fields → Alert arg !! k = None) ∧
  Alert (Alert arg) = Alert arg ∧
  (well_formed (Alert arg) ↔ well_formed arg).
Proof.
  split; [exact (js_get_Alert arg)|]. split; [|split; [|split]].
  - intros k Hk. unfold Alert_fields in Hk.
    repeat (apply elem_of_cons in Hk as [-> | Hk]; [by eexists|]).
    by apply elem_of_nil in Hk.
  - intros k Hk. unfold Alert, Alert_fields in *.
    rewrite !lookup_insert_ne, lookup_empty; try done; intros <-; apply Hk; set_solver.
  - unfold Alert at 1. rewrite !js_get_Alert by (unfold Alert_fields; set_solver). done.
  - unfold well_formed, has_string.
    by rewrite !js_get_Alert by (unfold Alert_fields; set_solver).
Qed.

Lemma count_where_zero (field s : string) (arr : list obj) :
  count_where field s arr = 0 ↔ Forall (fun a => js_get a field ≠ VString s) arr.
Proof.
  induction arr as [|a arr IH]; [by split|].
  rewrite count_where_cons, Forall_cons, <- IH. unfold strict_eq.
  case_bool_decide; split; try lia; tauto.
Qed.

Lemma count_where_le (field s : string) (arr : list obj) :
  count_where field s arr ≤ length arr.
Proof. unfold count_where. apply List.filter_length_le. Qed.

(** X15. The category breakdown is hidden (the component returns null)
    exactly when no alert of the collection has one of the categories 'CVE',
    'S3', 'IAM', 'Network', 'Activity', compared exactly; otherwise it shows
    the five cards in this order, with the counts. *)
Theorem CategoryBreakdown_hidden (arr : list obj) :
  (CategoryBreakdown (categoryCounts arr) = None ↔ Forall uncounted_category arr) ∧
  (∀ cards, CategoryBreakdown (categoryCounts arr) = Some cards →
     cat_name <$> cards = known_categories ∧
     cat_count <$> cards = (fun c => count_where "category" c arr) <$> known_categories).
Proof.
  unfold CategoryBreakdown, categoryCounts. cbn [foldl cat_count CVE S3 IAM Network Activity].
  split.
  - destruct (Nat.eqb_spec
               (0 + count_where "category" "CVE" arr + count_where "category" "S3" arr
                + count_where "category" "IAM" arr + count_where "category" "Network" arr
                + count_where "category" "Activity" arr) 0) as [Hzero | Hpos].
    + split; [intros _ | done].
      assert (Hall : ∀ c, c ∈ known_categories → count_where "category" c arr = 0).
      { intros c Hc. unfold known_categories in Hc.
        repeat (apply elem_of_cons in Hc as [-> | Hc]; [lia|]).
        by apply elem_of_nil in Hc. }
      apply Forall_forall. intros a Ha c Hc.
      specialize (Hall c Hc). rewrite count_where_zero, Forall_forall in Hall.
      by apply Hall.
    + split; [done|]. intros Hunc. exfalso. apply Hpos.
      assert (Hall : ∀ c, c ∈ known_categories → count_where "category" c arr = 0).
      { intros c Hc. apply count_where_zero. eapply Forall_impl; [exact Hunc|].
        intros a Ha. by apply Ha. }
      rewrite !Hall by (unfold known_categories; set_solver). done.
  - intros cards. destruct (_ =? 0); [done|]. by intros [= <-].
Qed.

(* ===================================================================== *)
(** * The render of the dashboard *)
(* ===================================================================== *)

Lemma Dashboard_unfold (st : DashState) (out : list obj) :
  fst (filteredAlerts st) = Ok out →
  Dashboard st =
  (Ok {| header_loading := loading st;
         header_totalAlerts := length (alerts st);
         stats_grid := StatsGrid (statistics (alerts st));
         category_breakdown := CategoryBreakdown (categoryCounts (alerts st));
         filters_section := if 0 <? length (alerts st) then Some (filters st) else None;
         alerts_section := AlertsSection out (length (alerts st)) (loading st) (error st) |},
   st).
Proof.
  rewrite filteredAlerts_unfold. cbn [fst]. intros Hout.
  unfold Dashboard, mbind, M_bind. rewrite filteredAlerts_unfold, Hout. reflexivity.
Qed.

Lemma filteredAlerts_well_formed (st : DashState) :
  Forall well_formed (alerts st) →
  ∃ out, fst (filteredAlerts st) = Ok out ∧ out `sublist_of` alerts st.
Proof.
  intros Hwf. rewrite filteredAlerts_unfold. cbn [fst].
  destruct (filter_res _ _) as [out|e] eqn:Hrun.
  - exists out. split; [done|]. by eapply filter_res_sublist.
  - apply filter_res_Throw in Hrun as (a & Ha & Hthrow).
    rewrite Forall_forall in Hwf.
    destruct (filter_callback_well_formed (filters st) a (Hwf a Ha)) as (b & Hb & _).
    congruence.
Qed.





(** X17. The four stat cards show the four status counts, in the order New,
    Acknowledged, In Progress, Resolved; their sum never exceeds the total
    shown in the header, and equals it exactly when the status of every
    alert is a lifecycle value. *)
Theorem Dashboard_stat_cards (st : DashState) (view : DashboardView) :
  fst (Dashboard st) = Ok view →
  value_shown <$> stats_grid view =
    (fun s => count_where "status" s (alerts st)) <$> lifecycle ∧
  foldr Nat.add 0 (value_shown <$> stats_grid view) ≤ header_totalAlerts view ∧
  (foldr Nat.add 0 (value_shown <$> stats_grid view) = header_totalAlerts view
   ↔ Forall has_lifecycle_status (alerts st)).
Proof.
  destruct (fst (filteredAlerts st)) as [out|e] eqn:Hout.
  - rewrite (Dashboard_unfold st out Hout). cbn [fst]. intros [= <-].
    cbn [stats_grid header_totalAlerts].
    pose proof (statistics_sum_le (alerts st)) as Hle.
    pose proof (statistics_sum_iff (alerts st)) as Hiff.
    cbn [statistics new acknowledged inProgress resolved total] in Hle, Hiff.
    cbn. split; [done|]. split; [lia|]. rewrite <- Hiff. lia.
  - unfold Dashboard, mbind, M_bind.
    destruct (filteredAlerts st) as [[out|e'] st']; cbn [fst] in *; congruence.
Qed.

Lemma Dashboard_stat_cards_witness :
  let st := state_with [A1; A2; A3] initial_filters in
  ∃ view, fst (Dashboard st) = Ok view ∧
          value_shown <$> stats_grid view = [1; 0; 1; 0] ∧
          header_totalAlerts view = 3.
Proof.
  intros st. eexists. split; [reflexivity|].
  destruct (Dashboard_stat_cards st _ eq_refl) as (Hvalues & _ & _).
  split; [exact Hvalues | reflexivity].
Defined.

(** X18. A response that is ok but whose body is not an array (an object,
    a number, null) wipes the display: whatever was shown before, the next
    render has no alerts, shows the no-alerts state, and has neither filter
    controls nor the category breakdown. *)
Theorem fetch_non_array_wipes (code : Z) (body : response_body) (st : DashState) :
  response_ok code = true →
  (∃ o, body = JSONObject o) ∨ (∃ v, body = JSONPrimitive v) →
  let st' := snd (fetchAlerts (HttpResponse code body) st) in
  ∃ view,
    Dashboard st' = (Ok view, st') ∧
    alerts st' = [] ∧ error st' = VNull ∧
    header_totalAlerts view = 0 ∧
    alerts_section view = (0, EmptyStateNoAlerts) ∧
    filters_section view = None ∧
    category_breakdown view = None.
Proof.
  intros Hok Hbody. cbn zeta.
  assert (Hdel : delivered (HttpResponse code body) = Some []).
  { unfold delivered. destruct Hbody as [[o ->] | [v ->]]; by rewrite Hok. }
  rewrite (fetchAlerts_delivered _ _ st Hdel). cbn [snd].
  eexists. split; [by apply Dashboard_unfold|]. done.
Qed.

Lemma fetch_non_array_wipes_witness :
  let st := state_with [A1; A2; A3] initial_filters in
  let st' := snd (fetchAlerts (HttpResponse 200 (JSONPrimitive VNull)) st) in
  ∃ view, Dashboard st' = (Ok view, st') ∧ alerts_section view = (0, EmptyStateNoAlerts).
Proof.
  intros st st'.
  destruct (fetch_non_array_wipes 200 (JSONPrimitive VNull) st eq_refl)
    as (view & Hview & _ & _ & _ & Hsection & _); [right; by eexists|].
  exists view. split; [exact Hview | exact Hsection].
Defined.

(** X19. A failed fetch shows its error only on an empty dashboard.  With
    alerts on display the alerts section after the failure is the one from
    before (only the loading flag of the header changes); without alerts the
    error state with the message is shown, unless the message is empty, in
    which case the no-alerts state is. *)
Theorem fetch_failure_display (net : alerts_fetch) (msg : string) (st : DashState) :
  failed_with net msg →
  Forall well_formed (alerts st) →
  let st' := snd (fetchAlerts net st) in
  ∃ view view',
    Dashboard st = (Ok view, st) ∧ Dashboard st' = (Ok view', st') ∧
    error st' = VString msg ∧
    (alerts st ≠ [] → alerts_section view' = alerts_section view) ∧
    (alerts st = [] →
       snd (alerts_section view') =
         if bool_decide (msg = "") then EmptyStateNoAlerts
         else ErrorState (VString msg)).
Proof.
  intros Hfail Hwf. cbn zeta.
  assert (Hrun : fetchAlerts net st =
    (Ok tt, {| alerts := alerts st; loading := false; error := VString msg;
               filters := filters st; dialogs := dialogs st |})).
  { by apply fetchAlerts_failed_with. }
  rewrite Hrun. cbn [snd].
  destruct (filteredAlerts_well_formed st Hwf) as (out & Hout & _).
  assert (Hout' : fst (filteredAlerts
            {| alerts := alerts st; loading := false; error := VString msg;
               filters := filters st; dialogs := dialogs st |}) = Ok out).
  { rewrite filteredAlerts_unfold in Hout |- *. exact Hout. }
  eexists _, _. split; [by apply Dashboard_unfold|].
  split; [by apply Dashboard_unfold|]. cbn [error alerts loading alerts_section].
  split; [done|]. unfold AlertsSection. split.
  - intros Hne. destruct (alerts st) as [|a l]; [done|].
    cbn [length]. by rewrite !andb_false_r.
  - intros Hempty. rewrite Hempty. cbn. by case_bool_decide.
Qed.

Lemma fetch_failure_display_witness :
  let st := state_with [A1; A2] initial_filters in
  let st' := snd (fetchAlerts (NetworkError "Failed to fetch") st) in
  failed_with (NetworkError "Failed to fetch") "Failed to fetch" ∧
  Forall well_formed (alerts st) ∧
  ∃ view', Dashboard st' = (Ok view', st') ∧
           error st' = VString "Failed to fetch" ∧
           alerts_section view' = (2, AlertsGrid [(A1, 0); (A2, 1)]).
Proof.
  intros st st'.
  assert (Hwf : Forall well_formed (alerts st))
    by (repeat constructor; apply sample_alert_well_formed).
  split; [reflexivity|]. split; [exact Hwf|].
  destruct (fetch_failure_display (NetworkError "Failed to fetch") "Failed to fetch"
              st eq_refl Hwf) as (view & view' & Hview & Hview' & Herror & Hsame & _).
  exists view'. split; [exact Hview'|]. split; [exact Herror|].
  rewrite Hsame by discriminate.
  assert (Hrun : fst (Dashboard st) =
                 Ok {| header_loading := false; header_totalAlerts := 2;
                       stats_grid := StatsGrid (statistics [A1; A2]);
                       category_breakdown := CategoryBreakdown (categoryCounts [A1; A2]);
                       filters_section := Some initial_filters;
                       alerts_section := (2, AlertsGrid [(A1, 0); (A2, 1)]) |})
    by reflexivity.
  rewrite Hview in Hrun. cbn [fst] in Hrun. injection Hrun as ->. reflexivity.
Defined.

(* ===================================================================== *)
(** * Filter changes *)
(* ===================================================================== *)

(** X20. A change made through one of the four filter controls sets that
    criterion to the given value and leaves the other three, the alerts and
    the rest of the state as they were; of two changes through the same
    control the later one wins, and changes through two different controls
    commute. *)
Theorem handleFilterChange_criterion (name : string) (v : string) (st : DashState) :
  name ∈ filter_controls →
  let st' := snd (handleFilterChange name v st) in
  fst (handleFilterChange name v st) = Ok tt ∧
  criterion name (filters st') = v ∧
  (∀ other, other ≠ name → criterion other (filters st') = criterion other (filters st)) ∧
  (alerts st' = alerts st ∧ loading st' = loading st ∧ error st' = error st ∧
   dialogs st' = dialogs st) ∧
  (∀ w, snd (handleFilterChange name w st') = snd (handleFilterChange name w st)) ∧
  (∀ other w, other ≠ name →
     snd (handleFilterChange other w st')
     = snd (handleFilterChange name v (snd (handleFilterChange other w st)))).
Proof.
  intros Hname. unfold filter_controls in Hname. cbn zeta.
  split; [done|].
  repeat (apply elem_of_cons in Hname as [-> | Hname];
          [ split; [reflexivity|]; split;
            [ intros other Hother; unfold criterion, handleFilterChange;
              cbn [snd filters]; repeat case_bool_decide; subst; done
            | split; [done|]; split;
              [ done
              | intros other w Hother; unfold handleFilterChange;
                cbn [snd filters alerts loading error dialogs];
                repeat case_bool_decide; subst; done ] ]
          |]).
  by apply elem_of_nil in Hname.
Qed.

Lemma handleFilterChange_criterion_witness :
  let st := state_with [A1; A2] initial_filters in
  ("status" ∈ filter_controls) ∧
  criterion "status" (filters (snd (handleFilterChange "status" "resolved" st)))
  = "resolved" ∧
  criterion "search" (filters (snd (handleFilterChange "status" "resolved" st)))
  = criterion "search" (filters st).
Proof.
  intros st.
  assert (Hname : "status" ∈ filter_controls) by (unfold filter_controls; set_solver).
  split; [exact Hname|].
  destruct (handleFilterChange_criterion "status" "resolved" st Hname)
    as (_ & Hset & Hother & _).
  split; [exact Hset | exact (Hother "search" ltac:(discriminate))].
Defined.

Lemma filter_res_map {A} (f : A → result bool) (g : A → A) (l out : list A) :
  (∀ x, x ∈ l → f (g x) = f x) →
  filter_res f l = Ok out → filter_res f (map g l) = Ok (map g out).
Proof.
  revert out. induction l as [|x l IH]; intros out Hfg; simpl.
  - by intros [= <-].
  - rewrite Hfg by left. destruct (f x) as [keep|e]; simpl; [|done].
    destruct (filter_res f l) as [kept|e] eqn:Hl; simpl; [|done].
    intros [= <-]. rewrite (IH kept) by (done || intros y Hy; apply Hfg; by right).
    simpl. by destruct keep.
Qed.

(** X21. While the status criterion is 'all', a successful update to a
    status string does not change which alerts are on display: the filtered
    output after the update is the one before, in the same order, with the
    update applied to its alerts. *)
Theorem filteredAlerts_after_update (st : DashState) (alertId : value) (t : string)
    (out : list obj) :
  status (filters st) = "all" →
  Forall well_formed (alerts st) →
  fst (filteredAlerts st) = Ok out →
  fst (filteredAlerts (snd (handleStatusUpdate alertId (VString t) (Response true) st)))
  = Ok (map (update_one alertId (VString t)) out).
Proof.
  intros Hall Hwf. rewrite handleStatusUpdate_ok, !filteredAlerts_unfold.
  cbn [fst snd alerts filters]. apply filter_res_map.
  intros a Ha. rewrite Forall_forall in Hwf.
  destruct (Hwf a Ha) as ([i Hi] & [sev Hsev] & [cat Hcat] & [s Hs] & [desc Hdesc]).
  rewrite (filter_callback_strings _ a i sev cat s desc) by done.
  unfold update_one. destruct (strict_eq (js_get a "id") alertId).
  - rewrite (filter_callback_strings _ _ i sev cat t desc);
      rewrite ?js_get_spread_eq, ?js_get_spread_ne by done; try done.
    unfold matchesb. by rewrite Hall.
  - by apply filter_callback_strings.
Qed.

Lemma filteredAlerts_after_update_witness :
  let st := state_with [A1; A2; A3]
              {| severity := "all"; status := "all"; category := "all";
                 search := "policy" |} in
  fst (filteredAlerts st) = Ok [A3] ∧
  fst (filteredAlerts (snd (handleStatusUpdate (VString "A3") (VString "Resolved")
                              (Response true) st)))
  = Ok [<["status" := VString "Resolved"]> A3].
Proof.
  intros st. split; [reflexivity|].
  assert (Hwf : Forall well_formed (alerts st))
    by (repeat constructor; apply sample_alert_well_formed).
  exact (filteredAlerts_after_update st (VString "A3") "Resolved" [A3]
           eq_refl Hwf eq_refl).
Defined.
